(** * ALITECS ADR plugin for ChirpStack: the decision algorithm of
    [alitecs-adr/main.go], embedded and verified.

    The Go handler computes an [adr.HandleResponse] from an
    [adr.HandleRequest] without any other input or effect.  Go's [int] is
    the 64-bit two's-complement integer, [uint32] is arithmetic modulo 2^32
    and [float32] is IEEE 754 binary32 with round-to-nearest-even; the three
    are modelled as such.  The step application is recursive, one call per
    step, and needs as much stack: [Handle] and [getIdealTxPowerIndexAndDR]
    give the values returned, [Handle_on_stack] and
    [getIdealTxPowerIndexAndDR_on_stack] say on which stack they are
    returned. *)

From Stdlib Require Import ZArith List Bool Lia.
From Stdlib Require String.
From Stdlib Require Import Floats.SpecFloat.
From Equations Require Import Equations.
Import ListNotations.
Local Open Scope Z_scope.

(** ** Machine integers *)

Module GoInt.

Definition min_int : Z := - 2 ^ 63.
Definition max_int : Z := 2 ^ 63 - 1.

(** Two's-complement wrap-around of a 64-bit [int]. *)
Definition wrap (z : Z) : Z := (z + 2 ^ 63) mod 2 ^ 64 - 2 ^ 63.

(** Wrap-around of a [uint32]. *)
Definition wrap32 (z : Z) : Z := z mod 2 ^ 32.

Definition is_int (z : Z) : bool := (min_int <=? z) && (z <=? max_int).
Definition is_uint32 (z : Z) : bool := (0 <=? z) && (z <? 2 ^ 32).

(** [x++] and [x--] on an [int]. *)
Definition incr (z : Z) : Z := wrap (z + 1).
Definition decr (z : Z) : Z := wrap (z - 1).

End GoInt.

(** ** binary32 floating point *)

Module F32.

Definition float32 : Type := spec_float.

Definition prec : Z := 24.
Definition emax : Z := 128.

Definition sub : float32 -> float32 -> float32 := SFsub prec emax.
Definition mul : float32 -> float32 -> float32 := SFmul prec emax.
Definition div : float32 -> float32 -> float32 := SFdiv prec emax.

(** [a < b] and [a > b]; both are false as soon as one side is a NaN. *)
Definition lt (a b : float32) : bool := SFltb a b.
Definition gt (a b : float32) : bool := SFltb b a.
Definition le (a b : float32) : bool := SFleb a b.

(** Conversion of an integer ([int], [uint32], or an integer constant) to
    [float32], rounding to nearest even. *)
Definition of_Z (z : Z) : float32 := binary_normalize prec emax z 0 false.

(** The integer part of a finite float, fraction discarded. *)
Definition trunc (s : bool) (m : positive) (e : Z) : Z :=
  let sm := cond_Zopp s (Z.pos m) in
  if 0 <=? e then sm * 2 ^ e else Z.quot sm (2 ^ (- e)).

Section ToInt.

(** Go leaves the result of converting a NaN, an infinity or a value
    outside the range of [int] to the implementation; it is a parameter
    here, forced into the range of [int]. *)
Variable unrepresentable : float32 -> Z.

(** [int(x)] for a [float32] [x]. *)
Definition to_int (x : float32) : Z :=
  match x with
  | S754_zero _ => 0
  | S754_finite s m e =>
      let t := trunc s m e in
      if GoInt.is_int t then t else GoInt.wrap (unrepresentable x)
  | S754_infinity _ | S754_nan => GoInt.wrap (unrepresentable x)
  end.

End ToInt.

End F32.

Abbreviation float32 := F32.float32.

(** ** The request and response of package [adr] *)

Module adr.

(** The fields of [adr.UplinkMetaData] the handler reads. *)
Record UplinkMetaData : Type := mkUplinkMetaData {
  FCnt : Z;            (* uint32 *)
  MaxSNR : float32;
  TXPowerIndex : Z     (* int *)
}.

Module HandleRequest.
Record t : Type := mk {
  ADR : bool;
  DR : Z;
  TxPowerIndex : Z;
  NbTrans : Z;
  MaxTxPowerIndex : Z;
  RequiredSNRForDR : float32;
  InstallationMargin : float32;
  MaxDR : Z;
  UplinkHistory : list UplinkMetaData
}.
End HandleRequest.

Module HandleResponse.
Record t : Type := mk {
  DR : Z;
  TxPowerIndex : Z;
  NbTrans : Z
}.
End HandleResponse.

End adr.

Import adr.

(** Go's [error]; [nil] is the absence of an error. *)
Definition error : Type := option String.string.
Definition nil_error : error := None.

(** Every integer field holds a value of its Go type and the history is a
    slice, whose length is an [int]. *)
Definition uplink_typed (m : UplinkMetaData) : bool :=
  GoInt.is_uint32 (FCnt m) && GoInt.is_int (TXPowerIndex m).

Definition request_typed (req : HandleRequest.t) : bool :=
  GoInt.is_int (HandleRequest.DR req)
  && GoInt.is_int (HandleRequest.TxPowerIndex req)
  && GoInt.is_int (HandleRequest.NbTrans req)
  && GoInt.is_int (HandleRequest.MaxTxPowerIndex req)
  && GoInt.is_int (HandleRequest.MaxDR req)
  && (Z.of_nat (length (HandleRequest.UplinkHistory req)) <=? GoInt.max_int)
  && forallb uplink_typed (HandleRequest.UplinkHistory req).

(** ** The handler *)

Definition pktLossRateTable : list (list Z) :=
  [ [1; 1; 2];
    [1; 2; 3];
    [2; 3; 3];
    [3; 3; 3] ].

(** [pktLossRateTable()[row][col]]; the indices the handler uses are always
    inside the table. *)
Definition table_at (row col : Z) : Z :=
  nth (Z.to_nat col) (nth (Z.to_nat row) pktLossRateTable []) 0.

Definition requiredHistoryCount : Z := 20.

Definition getMaxSNR (req : HandleRequest.t) : float32 :=
  fold_left
    (fun snrM m => if F32.gt (MaxSNR m) snrM then MaxSNR m else snrM)
    (HandleRequest.UplinkHistory req)
    (F32.of_Z (-999)).

(** [getHistoryCount] returns the history count with equal TxPowerIndex. *)
Definition getHistoryCount (req : HandleRequest.t) : Z :=
  fold_left
    (fun count uh =>
       if HandleRequest.TxPowerIndex req =? TXPowerIndex uh
       then GoInt.incr count else count)
    (HandleRequest.UplinkHistory req)
    0.

(** The value a call of [getIdealTxPowerIndexAndDR] returns.  Whether the
    call returns is another matter: the function calls itself once per step,
    and the nested calls must fit on the goroutine's stack; see
    [getIdealTxPowerIndexAndDR_on_stack] below, which returns this value when
    they do. *)
Equations? getIdealTxPowerIndexAndDR
  (nStep txPowerIndex dr maxTxPowerIndex maxDR : Z) : Z * Z
  by wf (Z.abs_nat nStep) lt :=
  getIdealTxPowerIndexAndDR nStep txPowerIndex dr maxTxPowerIndex maxDR
    with Z.eq_dec nStep 0 => {
    | left _ => (txPowerIndex, dr)
    | right _ with Z_gt_dec nStep 0 => {
      | left _ =>
          let '(txPowerIndex', dr') :=
            if dr <? maxDR then (txPowerIndex, GoInt.incr dr)
            else if txPowerIndex <? maxTxPowerIndex
                 then (GoInt.incr txPowerIndex, dr)
                 else (txPowerIndex, dr) in
          getIdealTxPowerIndexAndDR (GoInt.decr nStep) txPowerIndex' dr'
            maxTxPowerIndex maxDR
      | right _ =>
          let '(txPowerIndex', dr') :=
            if txPowerIndex >? 0 then (GoInt.decr txPowerIndex, dr)
            else if txPowerIndex =? 0
                 then (if dr >? 0 then (txPowerIndex, GoInt.decr dr)
                       else (txPowerIndex, dr))
                 else (txPowerIndex, dr) in
          getIdealTxPowerIndexAndDR (GoInt.incr nStep) txPowerIndex' dr'
            maxTxPowerIndex maxDR } }.
Proof.
  - unfold GoInt.decr, GoInt.wrap.
    pose proof (Z.mod_pos_bound (nStep - 1 + 2 ^ 63) (2 ^ 64) ltac:(lia)).
    destruct (Z_lt_dec (nStep - 1) (2 ^ 63)).
    + rewrite Z.mod_small by lia. lia.
    + lia.
  - unfold GoInt.incr, GoInt.wrap.
    pose proof (Z.mod_pos_bound (nStep + 1 + 2 ^ 63) (2 ^ 64) ltac:(lia)).
    destruct (Z_lt_dec (nStep + 1) (- 2 ^ 63)).
    + lia.
    + rewrite Z.mod_small by lia. lia.
Qed.

Definition getNbTrans (currentNbTrans : Z) (pktLossRate : float32) : Z :=
  let currentNbTrans := if currentNbTrans <? 1 then 1 else currentNbTrans in
  let currentNbTrans := if currentNbTrans >? 3 then 3 else currentNbTrans in
  if F32.lt pktLossRate (F32.of_Z 5) then
    table_at 0 (currentNbTrans - 1)
  else if F32.lt pktLossRate (F32.of_Z 10) then
    table_at 1 (currentNbTrans - 1)
  else if F32.lt pktLossRate (F32.of_Z 30) then
    table_at 2 (currentNbTrans - 1)
  else
    table_at 3 (currentNbTrans - 1).

(** The loop of [getPacketLossPercentage]: [i] is the index of the entry at
    the head of [history]. *)
Fixpoint lostPacketsLoop (i : nat) (history : list UplinkMetaData)
  (lostPackets previousFCnt : Z) : Z :=
  match history with
  | [] => lostPackets
  | m :: rest =>
      match i with
      | O => lostPacketsLoop 1 rest lostPackets (FCnt m)
      | S _ =>
          lostPacketsLoop (S i) rest
            (GoInt.wrap32
               (lostPackets
                + GoInt.wrap32 (GoInt.wrap32 (FCnt m - previousFCnt) - 1)))
            (FCnt m)
      end
  end.

Definition getPacketLossPercentage (req : HandleRequest.t) : float32 :=
  let history := HandleRequest.UplinkHistory req in
  if Z.of_nat (length history) <? requiredHistoryCount then
    S754_zero false
  else
    let lostPackets := lostPacketsLoop 0 history 0 0 in
    F32.mul
      (F32.div (F32.of_Z lostPackets) (F32.of_Z (Z.of_nat (length history))))
      (F32.of_Z 100).

Section Handler.

Variable unrepresentable : float32 -> Z.

(** The number of 'steps' of [Handle]. *)
Definition nStepOf (req : HandleRequest.t) : Z :=
  let snrM := getMaxSNR req in
  let snrMargin :=
    F32.sub (F32.sub snrM (HandleRequest.RequiredSNRForDR req))
      (HandleRequest.InstallationMargin req) in
  F32.to_int unrepresentable (F32.div snrMargin (F32.of_Z 3)).

(** [Handle] handles the ADR request: the response and error it returns.
    [Handle_on_stack] below is the same code with the stack of the step
    application made explicit. *)
Definition Handle (req : HandleRequest.t) : HandleResponse.t * error :=
  let resp :=
    HandleResponse.mk (HandleRequest.DR req) (HandleRequest.TxPowerIndex req)
      (HandleRequest.NbTrans req) in
  if negb (HandleRequest.ADR req) then (resp, nil_error)
  else
    let resp :=
      if HandleRequest.DR req >? HandleRequest.MaxDR req
      then HandleResponse.mk (HandleRequest.MaxDR req)
             (HandleResponse.TxPowerIndex resp) (HandleResponse.NbTrans resp)
      else resp in
    let resp :=
      HandleResponse.mk (HandleResponse.DR resp)
        (HandleResponse.TxPowerIndex resp)
        (getNbTrans (HandleRequest.NbTrans req)
           (getPacketLossPercentage req)) in
    let nStep := nStepOf req in
    if (nStep <? 0) && negb (getHistoryCount req =? requiredHistoryCount)
    then (resp, nil_error)
    else
      let '(txPowerIndex, dr) :=
        getIdealTxPowerIndexAndDR nStep (HandleResponse.TxPowerIndex resp)
          (HandleResponse.DR resp) (HandleRequest.MaxTxPowerIndex req)
          (HandleRequest.MaxDR req) in
      (HandleResponse.mk dr txPowerIndex (HandleResponse.NbTrans resp),
       nil_error).

End Handler.

(** The conversion of the gc compiler on amd64: every unrepresentable value
    becomes the most negative [int]. *)
Definition amd64 (_ : float32) : Z := GoInt.min_int.

(** One pass through the body of [getIdealTxPowerIndexAndDR] for a non-zero
    [nStep]: the arguments of the recursive call. *)
Definition iteration (maxTxPowerIndex maxDR : Z) (st : Z * Z * Z) : Z * Z * Z :=
  let '(nStep, txPowerIndex, dr) := st in
  if nStep >? 0 then
    if dr <? maxDR then (GoInt.decr nStep, txPowerIndex, GoInt.incr dr)
    else if txPowerIndex <? maxTxPowerIndex
         then (GoInt.decr nStep, GoInt.incr txPowerIndex, dr)
         else (GoInt.decr nStep, txPowerIndex, dr)
  else
    if txPowerIndex >? 0 then (GoInt.incr nStep, GoInt.decr txPowerIndex, dr)
    else if txPowerIndex =? 0
         then (if dr >? 0 then (GoInt.incr nStep, txPowerIndex, GoInt.decr dr)
               else (GoInt.incr nStep, txPowerIndex, dr))
         else (GoInt.incr nStep, txPowerIndex, dr).

Definition stepsOf (st : Z * Z * Z) : Z := fst (fst st).
Definition resultOf (st : Z * Z * Z) : Z * Z := (snd (fst st), snd st).

(** ** Notions used to state the properties *)

Definition clampNbTrans (currentNbTrans : Z) : Z :=
  Z.max 1 (Z.min 3 currentNbTrans).

(** The entry of a table row for a current retransmission count. *)
Definition row_entry (row : list Z) (currentNbTrans : Z) : Z :=
  nth (Z.to_nat (clampNbTrans currentNbTrans - 1)) row 0.

(** The frames missing between consecutive frame counters, added up without
    any wrap-around: [delta - 1] for each consecutive pair. *)
Fixpoint lost_sum (fcnts : list Z) : Z :=
  match fcnts with
  | a :: (b :: _) as rest => (b - a - 1) + lost_sum rest
  | _ => 0
  end.

(** Each frame counter is at least one more than the one before it. *)
Fixpoint counters_increase (fcnts : list Z) : bool :=
  match fcnts with
  | a :: (b :: _) as rest => (a + 1 <=? b) && counters_increase rest
  | _ => true
  end.

(** Each frame counter is exactly one more than the one before it. *)
Fixpoint counters_consecutive (fcnts : list Z) : bool :=
  match fcnts with
  | a :: (b :: _) as rest => (b =? a + 1) && counters_consecutive rest
  | _ => true
  end.

(** The number of history entries recorded at the request's TX power index. *)
Definition matching_count (req : HandleRequest.t) : Z :=
  Z.of_nat
    (length
       (filter (fun uh => HandleRequest.TxPowerIndex req =? TXPowerIndex uh)
          (HandleRequest.UplinkHistory req))).

(** [n] is the integer part of [m * 2^e], negated when [s] is set. *)
Definition truncated_toward_zero (s : bool) (m : positive) (e n : Z) : Prop :=
  exists k,
    0 <= k /\ n = cond_Zopp s k
    /\ (0 <= e -> k = Z.pos m * 2 ^ e)
    /\ (e < 0 -> k * 2 ^ (- e) <= Z.pos m < (k + 1) * 2 ^ (- e)).

(** A well-formed binary32 datum: canonical mantissa and exponent. *)
Definition float_valid (x : float32) : bool := valid_binary F32.prec F32.emax x.

(** [x] is a zero or carries the given sign; a NaN carries none. *)
Definition float_sign_is (s : bool) (x : float32) : Prop :=
  match x with
  | S754_zero _ => True
  | S754_infinity s' | S754_finite s' _ _ => s' = s
  | S754_nan => False
  end.

(** [x <= 0] and [0 <= x], infinities included. *)
Definition float_nonpos (x : float32) : Prop := float_sign_is true x.
Definition float_nonneg (x : float32) : Prop := float_sign_is false x.

(** [x] is finite and its integer part is an [int]. *)
Definition fits_int (x : float32) : bool :=
  match x with
  | S754_zero _ => true
  | S754_finite s m e => GoInt.is_int (F32.trunc s m e)
  | S754_infinity _ | S754_nan => false
  end.

(** A history with the given frame counters, all entries received with the
    same SNR at the same TX power index. *)
Definition uniform_history (fcnts : list Z) (snr tx : Z) : list UplinkMetaData :=
  map (fun fcnt => mkUplinkMetaData fcnt (F32.of_Z snr) tx) fcnts.

(** ADR disabled, every current value outside its range. *)
Definition req_disabled_out_of_range : HandleRequest.t :=
  HandleRequest.mk false 7 9 0 5 (F32.of_Z (-10)) (F32.of_Z 10) 5 [].

(** ADR enabled, no history, a required SNR below the sentinel. *)
Definition req_empty_history_low_required_snr : HandleRequest.t :=
  HandleRequest.mk true 0 0 1 5 (F32.of_Z (-1002)) (F32.of_Z 0) 5 [].

(** ADR enabled, one history entry whose SNR is below the sentinel. *)
Definition req_history_below_sentinel : HandleRequest.t :=
  HandleRequest.mk true 0 0 1 5 (F32.of_Z (-10)) (F32.of_Z 10) 5
    (uniform_history [1] (-1000) 0).

(** ADR enabled, no history, ordinary SNR figures. *)
Definition req_empty_history : HandleRequest.t :=
  HandleRequest.mk true 3 2 1 5 (F32.of_Z (-10)) (F32.of_Z 10) 5 [].

(** 20 entries, the second repeating the counter of the first and the third
    skipping one. *)
Definition req_repeat_then_gap : HandleRequest.t :=
  HandleRequest.mk true 3 1 1 5 (F32.of_Z (-10)) (F32.of_Z 10) 5
    (uniform_history
       [1; 1; 3; 4; 5; 6; 7; 8; 9; 10; 11; 12; 13; 14; 15; 16; 17; 18; 19; 20]
       5 1).

(** 20 entries, the second repeating the counter of the first, the others
    consecutive. *)
Definition req_one_repeat : HandleRequest.t :=
  HandleRequest.mk true 3 1 1 5 (F32.of_Z (-10)) (F32.of_Z 10) 5
    (uniform_history
       [1; 1; 2; 3; 4; 5; 6; 7; 8; 9; 10; 11; 12; 13; 14; 15; 16; 17; 18; 19]
       5 1).

(** 20 entries, two frames lost before the last one. *)
Definition req_two_lost : HandleRequest.t :=
  HandleRequest.mk true 3 1 2 5 (F32.of_Z (-10)) (F32.of_Z 10) 5
    (uniform_history
       [1; 2; 3; 4; 5; 6; 7; 8; 9; 10; 11; 12; 13; 14; 15; 16; 17; 18; 19; 22]
       5 1).

(** 21 entries at the current TX power index, a poor SNR. *)
Definition req_21_matching : HandleRequest.t :=
  HandleRequest.mk true 7 1 1 5 (F32.of_Z (-5)) (F32.of_Z 10) 5
    (uniform_history
       [1; 2; 3; 4; 5; 6; 7; 8; 9; 10; 11; 12; 13; 14; 15; 16; 17; 18; 19; 20;
        21]
       (-20) 1).

(** ADR enabled, a good SNR, room to raise the data rate. *)
Definition req_good_link : HandleRequest.t :=
  HandleRequest.mk true 3 1 1 5 (F32.of_Z (-10)) (F32.of_Z 10) 5
    (uniform_history [1; 2] 7 1).

(** ** Notions used to state further properties of the handler *)

(** Where [n >= 0] steps take a TX power index and a data rate: the data
    rate is raised up to [maxDR] first, the steps left over raise the TX power
    index up to [maxTxPowerIndex]. *)
Definition raise_result (n txPowerIndex dr maxTxPowerIndex maxDR : Z) : Z * Z :=
  let dr' := Z.max dr (Z.min maxDR (dr + n)) in
  let left := n - (dr' - dr) in
  (Z.max txPowerIndex (Z.min maxTxPowerIndex (txPowerIndex + left)), dr').

(** Where [m >= 0] steps in the other direction take them: the TX power
    index is lowered down to 0 first, the steps left over lower the data rate
    down to 0; a negative TX power index blocks both. *)
Definition lower_result (m txPowerIndex dr : Z) : Z * Z :=
  if txPowerIndex <? 0 then (txPowerIndex, dr)
  else
    let tx' := Z.max 0 (txPowerIndex - m) in
    let left := m - (txPowerIndex - tx') in
    (tx', Z.min dr (Z.max 0 (dr - left))).

(** The request of the next round: the device has taken over the response,
    everything else is as before. *)
Definition apply_response (req : HandleRequest.t) (resp : HandleResponse.t)
  : HandleRequest.t :=
  HandleRequest.mk (HandleRequest.ADR req) (HandleResponse.DR resp)
    (HandleResponse.TxPowerIndex resp) (HandleResponse.NbTrans resp)
    (HandleRequest.MaxTxPowerIndex req) (HandleRequest.RequiredSNRForDR req)
    (HandleRequest.InstallationMargin req) (HandleRequest.MaxDR req)
    (HandleRequest.UplinkHistory req).

(** The request with another history. *)
Definition with_history (req : HandleRequest.t) (history : list UplinkMetaData)
  : HandleRequest.t :=
  HandleRequest.mk (HandleRequest.ADR req) (HandleRequest.DR req)
    (HandleRequest.TxPowerIndex req) (HandleRequest.NbTrans req)
    (HandleRequest.MaxTxPowerIndex req) (HandleRequest.RequiredSNRForDR req)
    (HandleRequest.InstallationMargin req) (HandleRequest.MaxDR req)
    history.

Definition snr_is_number (m : UplinkMetaData) : bool :=
  match MaxSNR m with S754_nan => false | _ => true end.

(** Each frame counter is the one before it plus one, as a [uint32]: the
    counter may roll over from 2^32 - 1 to 0. *)
Fixpoint counters_consecutive_uint32 (fcnts : list Z) : bool :=
  match fcnts with
  | a :: (b :: _) as rest =>
      (b =? GoInt.wrap32 (a + 1)) && counters_consecutive_uint32 rest
  | _ => true
  end.

(** Indexing as Go does it: outside the slice or array the program panics,
    which is [None] here. *)
Definition index_checked {A : Type} (l : list A) (i : Z) : option A :=
  if i <? 0 then None else nth_error l (Z.to_nat i).

(** [getNbTrans] with its two table accesses checked. *)
Definition getNbTrans_checked (currentNbTrans : Z) (pktLossRate : float32)
  : option Z :=
  let currentNbTrans := if currentNbTrans <? 1 then 1 else currentNbTrans in
  let currentNbTrans := if currentNbTrans >? 3 then 3 else currentNbTrans in
  let at_row row :=
    match index_checked pktLossRateTable row with
    | Some r => index_checked r (currentNbTrans - 1)
    | None => None
    end in
  if F32.lt pktLossRate (F32.of_Z 5) then at_row 0
  else if F32.lt pktLossRate (F32.of_Z 10) then at_row 1
  else if F32.lt pktLossRate (F32.of_Z 30) then at_row 2
  else at_row 3.

(** The TX power index and data rate [Handle] decides on, from the number
    of steps, the number of history entries at the current TX power index and
    the data rate after the clamp. *)
Definition decision (nStep count txPowerIndex dr maxTxPowerIndex maxDR : Z)
  : Z * Z :=
  if 0 <=? nStep then raise_result nStep txPowerIndex dr maxTxPowerIndex maxDR
  else if count =? 20 then lower_result (- nStep) txPowerIndex dr
  else (txPowerIndex, dr).

(** 20 entries whose counters roll over from 2^32 - 1 to 0. *)
Definition req_rollover : HandleRequest.t :=
  HandleRequest.mk true 3 1 3 5 (F32.of_Z (-10)) (F32.of_Z 10) 5
    (uniform_history
       [4294967293; 4294967294; 4294967295; 0; 1; 2; 3; 4; 5; 6; 7; 8; 9; 10;
        11; 12; 13; 14; 15; 16]
       5 1).

(** Three entries, the second without a usable SNR. *)
Definition req_nan_entry : HandleRequest.t :=
  HandleRequest.mk true 3 1 1 5 (F32.of_Z (-10)) (F32.of_Z 10) 5
    [mkUplinkMetaData 1 (F32.of_Z 4) 1; mkUplinkMetaData 2 S754_nan 1;
     mkUplinkMetaData 3 (F32.of_Z 6) 1].

(** 20 entries at the current TX power index, a poor SNR. *)
Definition req_20_matching : HandleRequest.t :=
  HandleRequest.mk true 7 1 1 5 (F32.of_Z (-5)) (F32.of_Z 10) 5
    (uniform_history
       [1; 2; 3; 4; 5; 6; 7; 8; 9; 10; 11; 12; 13; 14; 15; 16; 17; 18; 19; 20]
       (-20) 1).

(** An SNR that leaves no step to take, a retransmission count the table
    keeps. *)
Definition req_equilibrium : HandleRequest.t :=
  HandleRequest.mk true 3 1 1 5 (F32.of_Z (-10)) (F32.of_Z 10) 5
    (uniform_history [1; 2] 1 1).

(** ** The call stack

    [getIdealTxPowerIndexAndDR] ends in a call of itself (main.go:124), and
    the Go compiler keeps it a call: a run with [nStep] steps nests
    [|nStep| + 1] activations of the function.  A goroutine's stack is
    bounded (1 GB by default on 64-bit systems); when it cannot grow any
    further the runtime stops the whole process with
    "fatal error: stack overflow", which no [recover] catches.

    [frames] is the number of activations of the function that fit on what is
    left of the stack when it is called; [None] is the fatal error.  Each call
    takes one activation, gives it back when it returns, and runs the body of
    main.go:98-124 as it is. *)
Fixpoint getIdealTxPowerIndexAndDR_on_stack (frames : nat)
  (nStep txPowerIndex dr maxTxPowerIndex maxDR : Z) : option (Z * Z) :=
  match frames with
  | O => None
  | S frames =>
      if nStep =? 0 then Some (txPowerIndex, dr)
      else if nStep >? 0 then
        let '(txPowerIndex', dr') :=
          if dr <? maxDR then (txPowerIndex, GoInt.incr dr)
          else if txPowerIndex <? maxTxPowerIndex
               then (GoInt.incr txPowerIndex, dr)
               else (txPowerIndex, dr) in
        getIdealTxPowerIndexAndDR_on_stack frames (GoInt.decr nStep)
          txPowerIndex' dr' maxTxPowerIndex maxDR
      else
        let '(txPowerIndex', dr') :=
          if txPowerIndex >? 0 then (GoInt.decr txPowerIndex, dr)
          else if txPowerIndex =? 0
               then (if dr >? 0 then (txPowerIndex, GoInt.decr dr)
                     else (txPowerIndex, dr))
               else (txPowerIndex, dr) in
        getIdealTxPowerIndexAndDR_on_stack frames (GoInt.incr nStep)
          txPowerIndex' dr' maxTxPowerIndex maxDR
  end.

(** [Handle] on such a stack: main.go:24-61 as it is, the call at line 58
    being the one that may not return. *)
Definition Handle_on_stack (unrepresentable : float32 -> Z) (frames : nat)
  (req : HandleRequest.t) : option (HandleResponse.t * error) :=
  let resp :=
    HandleResponse.mk (HandleRequest.DR req) (HandleRequest.TxPowerIndex req)
      (HandleRequest.NbTrans req) in
  if negb (HandleRequest.ADR req) then Some (resp, nil_error)
  else
    let resp :=
      if HandleRequest.DR req >? HandleRequest.MaxDR req
      then HandleResponse.mk (HandleRequest.MaxDR req)
             (HandleResponse.TxPowerIndex resp) (HandleResponse.NbTrans resp)
      else resp in
    let resp :=
      HandleResponse.mk (HandleResponse.DR resp)
        (HandleResponse.TxPowerIndex resp)
        (getNbTrans (HandleRequest.NbTrans req)
           (getPacketLossPercentage req)) in
    let nStep := nStepOf unrepresentable req in
    if (nStep <? 0) && negb (getHistoryCount req =? requiredHistoryCount)
    then Some (resp, nil_error)
    else
      match
        getIdealTxPowerIndexAndDR_on_stack frames nStep
          (HandleResponse.TxPowerIndex resp) (HandleResponse.DR resp)
          (HandleRequest.MaxTxPowerIndex req) (HandleRequest.MaxDR req)
      with
      | Some (txPowerIndex, dr) =>
          Some (HandleResponse.mk dr txPowerIndex (HandleResponse.NbTrans resp),
                nil_error)
      | None => None
      end.

(** Two calls one after the other, the second from where the first led; the
    second finds the stack as the first found it. *)
Definition then_on_stack (frames : nat) (a b txPowerIndex dr
  maxTxPowerIndex maxDR : Z) : option (Z * Z) :=
  match
    getIdealTxPowerIndexAndDR_on_stack frames a txPowerIndex dr
      maxTxPowerIndex maxDR
  with
  | Some (txPowerIndex', dr') =>
      getIdealTxPowerIndexAndDR_on_stack frames b txPowerIndex' dr'
        maxTxPowerIndex maxDR
  | None => None
  end.

(** A stack with room for ten million activations: the order of magnitude
    of the default limit with activations of about a hundred bytes. *)
Definition ten_million_frames : nat := Z.to_nat 10000000.

(** One history entry with an SNR of 3 * 10^9. *)
Definition req_huge_snr : HandleRequest.t :=
  HandleRequest.mk true 0 0 1 5 (F32.of_Z (-10)) (F32.of_Z 10) 5
    [mkUplinkMetaData 1 (F32.of_Z 3000000000) 0].

(** An out-of-range TX power index with a poor SNR over 20 entries at that
    index, and one below 0 with a good SNR at the highest data rate. *)
Definition req_tx_above_max : HandleRequest.t :=
  HandleRequest.mk true 5 9 1 5 (F32.of_Z (-5)) (F32.of_Z 10) 5
    (uniform_history
       [1; 2; 3; 4; 5; 6; 7; 8; 9; 10; 11; 12; 13; 14; 15; 16; 17; 18; 19; 20]
       (-20) 9).

Definition req_tx_below_zero : HandleRequest.t :=
  HandleRequest.mk true 5 (-1) 1 5 (F32.of_Z (-10)) (F32.of_Z 10) 5
    (uniform_history [1; 2] 12 (-1)).

(** ** Machine integers: basic facts *)

Lemma is_int_spec z :
  GoInt.is_int z = true <-> GoInt.min_int <= z <= GoInt.max_int.
Proof. unfold GoInt.is_int. rewrite andb_true_iff, !Z.leb_le. tauto. Qed.

Lemma is_uint32_spec z : GoInt.is_uint32 z = true <-> 0 <= z < 2 ^ 32.
Proof.
  unfold GoInt.is_uint32. rewrite andb_true_iff, Z.leb_le, Z.ltb_lt. tauto.
Qed.

Lemma wrap_small z :
  GoInt.min_int <= z <= GoInt.max_int -> GoInt.wrap z = z.
Proof.
  unfold GoInt.wrap, GoInt.min_int, GoInt.max_int. intros H.
  rewrite Z.mod_small by lia. lia.
Qed.

Lemma wrap_is_int z : GoInt.is_int (GoInt.wrap z) = true.
Proof.
  apply is_int_spec. unfold GoInt.wrap, GoInt.min_int, GoInt.max_int.
  pose proof (Z.mod_pos_bound (z + 2 ^ 63) (2 ^ 64) ltac:(lia)). lia.
Qed.

Lemma incr_small z : - 2 ^ 63 <= z < 2 ^ 63 - 1 -> GoInt.incr z = z + 1.
Proof.
  intros H. apply wrap_small. unfold GoInt.min_int, GoInt.max_int. lia.
Qed.

Lemma decr_small z : - 2 ^ 63 < z <= 2 ^ 63 - 1 -> GoInt.decr z = z - 1.
Proof.
  intros H. apply wrap_small. unfold GoInt.min_int, GoInt.max_int. lia.
Qed.

Ltac int_bounds :=
  repeat match goal with
    | H : GoInt.is_int _ = true |- _ => apply is_int_spec in H
    | H : GoInt.is_uint32 _ = true |- _ => apply is_uint32_spec in H
    | |- GoInt.is_int _ = true => apply is_int_spec
    | |- GoInt.is_uint32 _ = true => apply is_uint32_spec
    end;
  unfold GoInt.min_int, GoInt.max_int in *.

(** ** The step application *)

Lemma getIdeal_unfold nStep txPowerIndex dr maxTxPowerIndex maxDR :
  getIdealTxPowerIndexAndDR nStep txPowerIndex dr maxTxPowerIndex maxDR =
  if nStep =? 0 then (txPowerIndex, dr)
  else
    let st := iteration maxTxPowerIndex maxDR (nStep, txPowerIndex, dr) in
    getIdealTxPowerIndexAndDR (stepsOf st) (fst (resultOf st)) (snd (resultOf st))
      maxTxPowerIndex maxDR.
Proof.
  rewrite getIdealTxPowerIndexAndDR_equation_1.
  unfold iteration.
  destruct (Z.eq_dec nStep 0) as [E | E]; cbn.
  - subst nStep. reflexivity.
  - rewrite (proj2 (Z.eqb_neq nStep 0) E).
    destruct (Z_gt_dec nStep 0) as [G | G]; cbn.
    + rewrite (proj2 (Z.gtb_gt nStep 0) G).
      destruct (dr <? maxDR); [reflexivity |].
      destruct (txPowerIndex <? maxTxPowerIndex); reflexivity.
    + assert (G' : (nStep >? 0) = false).
      { destruct (nStep >? 0) eqn:X; [apply Z.gtb_gt in X; lia | reflexivity]. }
      rewrite G'.
      destruct (txPowerIndex >? 0); [reflexivity |].
      destruct (txPowerIndex =? 0); [| reflexivity].
      destruct (dr >? 0); reflexivity.
Qed.

Lemma iteration_steps maxTx maxDR nStep tx dr :
  GoInt.is_int nStep = true -> nStep <> 0 ->
  stepsOf (iteration maxTx maxDR (nStep, tx, dr)) = nStep - Z.sgn nStep.
Proof.
  intros Hn Hz. int_bounds. unfold GoInt.min_int, GoInt.max_int in Hn.
  unfold iteration.
  destruct (nStep >? 0) eqn:G.
  - apply Z.gtb_gt in G.
    assert (D : GoInt.decr nStep = nStep - Z.sgn nStep).
    { rewrite decr_small by lia. lia. }
    destruct (dr <? maxDR); [exact D |].
    destruct (tx <? maxTx); exact D.
  - assert (nStep < 0).
    { destruct (Z.gtb_spec nStep 0); [discriminate | lia]. }
    assert (D : GoInt.incr nStep = nStep - Z.sgn nStep).
    { rewrite incr_small by lia. lia. }
    destruct (tx >? 0); [exact D |].
    destruct (tx =? 0); [| exact D].
    destruct (dr >? 0); exact D.
Qed.

Lemma trace_steps maxTx maxDR nStep tx dr k :
  GoInt.is_int nStep = true -> (k <= Z.abs_nat nStep)%nat ->
  stepsOf (Nat.iter k (iteration maxTx maxDR) (nStep, tx, dr))
  = nStep - Z.sgn nStep * Z.of_nat k.
Proof.
  intros Hn. induction k as [| k IH]; intros Hk.
  - cbn. lia.
  - rewrite Nat.iter_succ.
    specialize (IH ltac:(lia)).
    destruct (Nat.iter k (iteration maxTx maxDR) (nStep, tx, dr))
      as [[n' tx'] dr'] eqn:E.
    cbn [stepsOf fst] in IH. subst n'.
    destruct (Z.sgn_spec nStep) as [[N S] | [[N S] | [N S]]]; rewrite S in *.
    + rewrite iteration_steps; [| int_bounds; lia | lia].
      rewrite Z.sgn_pos by lia. lia.
    + lia.
    + rewrite iteration_steps; [| int_bounds; lia | lia].
      rewrite Z.sgn_neg by lia. lia.
Qed.

Lemma getIdeal_trace maxTx maxDR nStep tx dr k :
  GoInt.is_int nStep = true -> (k <= Z.abs_nat nStep)%nat ->
  let st := Nat.iter k (iteration maxTx maxDR) (nStep, tx, dr) in
  getIdealTxPowerIndexAndDR nStep tx dr maxTx maxDR
  = getIdealTxPowerIndexAndDR (stepsOf st) (fst (resultOf st))
      (snd (resultOf st)) maxTx maxDR.
Proof.
  intros Hn. induction k as [| k IH]; intros Hk st.
  - reflexivity.
  - specialize (IH ltac:(lia)). cbv zeta in IH. rewrite IH.
    pose proof (trace_steps maxTx maxDR nStep tx dr k Hn ltac:(lia)) as S.
    subst st. rewrite Nat.iter_succ.
    destruct (Nat.iter k (iteration maxTx maxDR) (nStep, tx, dr))
      as [[n' tx'] dr'] eqn:E.
    cbn [stepsOf resultOf fst snd] in *.
    rewrite (getIdeal_unfold n').
    assert (Z : n' <> 0).
    { destruct (Z.sgn_spec nStep) as [[N S'] | [[N S'] | [N S']]];
        rewrite S' in *; lia. }
    rewrite (proj2 (Z.eqb_neq n' 0) Z). reflexivity.
Qed.

Lemma getIdeal_iter maxTx maxDR nStep tx dr :
  GoInt.is_int nStep = true ->
  getIdealTxPowerIndexAndDR nStep tx dr maxTx maxDR
  = resultOf (Nat.iter (Z.abs_nat nStep) (iteration maxTx maxDR) (nStep, tx, dr)).
Proof.
  intros Hn.
  rewrite (getIdeal_trace maxTx maxDR nStep tx dr (Z.abs_nat nStep) Hn
             (Nat.le_refl _)).
  cbv zeta.
  pose proof (trace_steps maxTx maxDR nStep tx dr (Z.abs_nat nStep) Hn
                (Nat.le_refl _)) as S.
  rewrite getIdeal_unfold.
  replace (stepsOf _ =? 0) with true.
  2:{ symmetry; apply Z.eqb_eq. rewrite S.
      destruct (Z.sgn_spec nStep) as [[N S'] | [[N S'] | [N S']]];
        rewrite S'; lia. }
  destruct (Nat.iter _ _ _) as [[a b] c]. reflexivity.
Qed.

Lemma on_stack_unfold frames nStep tx dr maxTx maxDR :
  getIdealTxPowerIndexAndDR_on_stack (S frames) nStep tx dr maxTx maxDR =
  if nStep =? 0 then Some (tx, dr)
  else
    let st := iteration maxTx maxDR (nStep, tx, dr) in
    getIdealTxPowerIndexAndDR_on_stack frames (stepsOf st) (fst (resultOf st))
      (snd (resultOf st)) maxTx maxDR.
Proof.
  cbn [getIdealTxPowerIndexAndDR_on_stack]. unfold iteration.
  destruct (nStep =? 0); [reflexivity |].
  destruct (nStep >? 0).
  - destruct (dr <? maxDR); [reflexivity |].
    destruct (tx <? maxTx); reflexivity.
  - destruct (tx >? 0); [reflexivity |].
    destruct (tx =? 0); [| reflexivity].
    destruct (dr >? 0); reflexivity.
Qed.

(** The call nested [k] deep runs on the state after [k] passes, with [k]
    activations fewer left. *)
Lemma on_stack_trace maxTx maxDR nStep tx dr frames k :
  GoInt.is_int nStep = true ->
  (k <= Z.abs_nat nStep)%nat -> (k <= frames)%nat ->
  let st := Nat.iter k (iteration maxTx maxDR) (nStep, tx, dr) in
  getIdealTxPowerIndexAndDR_on_stack frames nStep tx dr maxTx maxDR
  = getIdealTxPowerIndexAndDR_on_stack (frames - k) (stepsOf st)
      (fst (resultOf st)) (snd (resultOf st)) maxTx maxDR.
Proof.
  intros Hn. induction k as [| k IH]; intros Hk Hf st.
  - subst st. rewrite Nat.sub_0_r. reflexivity.
  - specialize (IH ltac:(lia) ltac:(lia)). cbv zeta in IH. rewrite IH.
    pose proof (trace_steps maxTx maxDR nStep tx dr k Hn ltac:(lia)) as S.
    subst st. rewrite Nat.iter_succ.
    destruct (Nat.iter k (iteration maxTx maxDR) (nStep, tx, dr))
      as [[n' tx'] dr'] eqn:E.
    cbn [stepsOf resultOf fst snd] in *.
    replace (frames - k)%nat with (Datatypes.S (frames - Datatypes.S k)) by lia.
    rewrite on_stack_unfold.
    assert (Z : n' <> 0).
    { destruct (Z.sgn_spec nStep) as [[N S'] | [[N S'] | [N S']]];
        rewrite S' in *; lia. }
    rewrite (proj2 (Z.eqb_neq n' 0) Z). reflexivity.
Qed.

Lemma on_stack_result maxTx maxDR nStep tx dr frames :
  GoInt.is_int nStep = true -> Z.abs nStep < Z.of_nat frames ->
  getIdealTxPowerIndexAndDR_on_stack frames nStep tx dr maxTx maxDR
  = Some (resultOf
            (Nat.iter (Z.abs_nat nStep) (iteration maxTx maxDR) (nStep, tx, dr))).
Proof.
  intros Hn Hf.
  rewrite (on_stack_trace maxTx maxDR nStep tx dr frames (Z.abs_nat nStep) Hn
             (Nat.le_refl _) ltac:(lia)).
  cbv zeta.
  pose proof (trace_steps maxTx maxDR nStep tx dr (Z.abs_nat nStep) Hn
                (Nat.le_refl _)) as S.
  replace (frames - Z.abs_nat nStep)%nat
    with (Datatypes.S (frames - Datatypes.S (Z.abs_nat nStep))) by lia.
  rewrite on_stack_unfold.
  replace (stepsOf _ =? 0) with true.
  2:{ symmetry; apply Z.eqb_eq. rewrite S.
      destruct (Z.sgn_spec nStep) as [[N S'] | [[N S'] | [N S']]];
        rewrite S'; lia. }
  destruct (Nat.iter _ _ _) as [[a b] c]. reflexivity.
Qed.

(** The call returns, with the value of [getIdealTxPowerIndexAndDR], when
    its [|nStep| + 1] activations fit. *)
Lemma on_stack_returns maxTx maxDR nStep tx dr frames :
  GoInt.is_int nStep = true -> Z.abs nStep < Z.of_nat frames ->
  getIdealTxPowerIndexAndDR_on_stack frames nStep tx dr maxTx maxDR
  = Some (getIdealTxPowerIndexAndDR nStep tx dr maxTx maxDR).
Proof.
  intros Hn Hf. rewrite on_stack_result by assumption.
  rewrite getIdeal_iter by assumption. reflexivity.
Qed.

(** It does not return when they do not fit. *)
Lemma on_stack_overflows maxTx maxDR nStep tx dr frames :
  GoInt.is_int nStep = true -> Z.of_nat frames <= Z.abs nStep ->
  getIdealTxPowerIndexAndDR_on_stack frames nStep tx dr maxTx maxDR = None.
Proof.
  intros Hn Hf.
  rewrite (on_stack_trace maxTx maxDR nStep tx dr frames frames Hn
             ltac:(lia) (Nat.le_refl _)).
  cbv zeta. rewrite Nat.sub_diag. reflexivity.
Qed.



Ltac split_tests :=
  repeat match goal with
    | |- context [?a <? ?b] => destruct (Z.ltb_spec a b)
    | |- context [?a >? ?b] => destruct (Z.gtb_spec a b)
    | |- context [?a =? ?b] => destruct (Z.eqb_spec a b)
    end.

Ltac one_pass n :=
  rewrite (getIdeal_unfold n); unfold iteration;
  split_tests; try lia;
  cbn [stepsOf resultOf fst snd]; cbv zeta;
  cbn [stepsOf resultOf fst snd];
  rewrite ?incr_small, ?decr_small by lia;
  try reflexivity.

(** C6.  What one pass of the step application does, case by case, for
    arguments that are Go [int]s, and the two worked cases of the
    specification. *)
Theorem step_application_cases
  (nStep txPowerIndex dr maxTxPowerIndex maxDR : Z) :
  GoInt.is_int nStep = true ->
  GoInt.is_int txPowerIndex = true ->
  GoInt.is_int dr = true ->
  GoInt.is_int maxTxPowerIndex = true ->
  GoInt.is_int maxDR = true ->
  let run n tx d := getIdealTxPowerIndexAndDR n tx d maxTxPowerIndex maxDR in
  (0 < nStep -> dr < maxDR ->
     run nStep txPowerIndex dr = run (nStep - 1) txPowerIndex (dr + 1))
  /\ (0 < nStep -> maxDR <= dr -> txPowerIndex < maxTxPowerIndex ->
        run nStep txPowerIndex dr = run (nStep - 1) (txPowerIndex + 1) dr)
  /\ (0 < nStep -> maxDR <= dr -> maxTxPowerIndex <= txPowerIndex ->
        run nStep txPowerIndex dr = run (nStep - 1) txPowerIndex dr)
  /\ (nStep < 0 -> 0 < txPowerIndex ->
        run nStep txPowerIndex dr = run (nStep + 1) (txPowerIndex - 1) dr)
  /\ (nStep < 0 -> txPowerIndex = 0 -> 0 < dr ->
        run nStep txPowerIndex dr = run (nStep + 1) txPowerIndex (dr - 1))
  /\ (nStep < 0 -> txPowerIndex < 0 \/ (txPowerIndex = 0 /\ dr <= 0) ->
        run nStep txPowerIndex dr = run (nStep + 1) txPowerIndex dr)
  /\ getIdealTxPowerIndexAndDR 2 1 3 3 5 = (1, 5)
  /\ getIdealTxPowerIndexAndDR (-1) 2 dr maxTxPowerIndex maxDR = (1, dr).
Proof.
  intros Hn Ht Hd Hmt Hmd run. subst run. cbv beta. int_bounds.
  split; [| split; [| split; [| split; [| split; [| split; [| split]]]]]];
    intros.
  - one_pass nStep.
  - one_pass nStep.
  - one_pass nStep.
  - one_pass nStep.
  - one_pass nStep.
  - one_pass nStep.
  - reflexivity.
  - one_pass (-1).
Qed.

Lemma step_application_witness :
  getIdealTxPowerIndexAndDR 2 3 5 3 5 = getIdealTxPowerIndexAndDR 1 3 5 3 5
  /\ getIdealTxPowerIndexAndDR (-1) 2 5 3 5 = (1, 5).
Proof.
  pose proof (step_application_cases 2 3 5 3 5
                eq_refl eq_refl eq_refl eq_refl eq_refl) as H.
  cbv zeta in H.
  destruct H as (_ & _ & H3 & _ & _ & _ & _ & H8).
  split.
  - apply H3; lia.
  - exact H8.
Defined.

(** ** Bounds kept by the step application *)

Lemma iter_invariant (P : Z -> Z -> Prop) maxTx maxDR :
  (forall n tx dr, P tx dr ->
     P (fst (resultOf (iteration maxTx maxDR (n, tx, dr))))
       (snd (resultOf (iteration maxTx maxDR (n, tx, dr))))) ->
  forall k n tx dr, P tx dr ->
    P (fst (resultOf (Nat.iter k (iteration maxTx maxDR) (n, tx, dr))))
      (snd (resultOf (Nat.iter k (iteration maxTx maxDR) (n, tx, dr)))).
Proof.
  intros Hstep k. induction k as [| k IH]; intros n tx dr H.
  - exact H.
  - rewrite Nat.iter_succ. specialize (IH n tx dr H).
    destruct (Nat.iter k (iteration maxTx maxDR) (n, tx, dr)) as [[n' tx'] dr'].
    apply Hstep. exact IH.
Qed.

Lemma getIdeal_invariant (P : Z -> Z -> Prop) maxTx maxDR :
  (forall n tx dr, P tx dr ->
     P (fst (resultOf (iteration maxTx maxDR (n, tx, dr))))
       (snd (resultOf (iteration maxTx maxDR (n, tx, dr))))) ->
  forall n tx dr, GoInt.is_int n = true -> P tx dr ->
    P (fst (getIdealTxPowerIndexAndDR n tx dr maxTx maxDR))
      (snd (getIdealTxPowerIndexAndDR n tx dr maxTx maxDR)).
Proof.
  intros Hstep n tx dr Hn H. rewrite getIdeal_iter by assumption.
  apply iter_invariant; assumption.
Qed.

Ltac pass_cases :=
  unfold iteration; split_tests; cbn [stepsOf resultOf fst snd];
  rewrite ?incr_small, ?decr_small by lia.

Lemma getIdeal_dr_le_max maxTx maxDR n tx dr :
  GoInt.is_int n = true -> GoInt.is_int dr = true ->
  GoInt.is_int maxDR = true -> dr <= maxDR ->
  snd (getIdealTxPowerIndexAndDR n tx dr maxTx maxDR) <= maxDR.
Proof.
  intros Hn Hd Hm Hle.
  apply (getIdeal_invariant
           (fun _ d => GoInt.is_int d = true /\ d <= maxDR) maxTx maxDR);
    [| assumption | split; assumption].
  clear - Hm. intros n tx dr [Hd Hle].
  int_bounds. pass_cases; split; int_bounds; lia.
Qed.

Lemma getIdeal_tx_bounds maxTx maxDR n tx dr :
  GoInt.is_int n = true -> GoInt.is_int maxTx = true ->
  0 <= tx <= maxTx ->
  0 <= fst (getIdealTxPowerIndexAndDR n tx dr maxTx maxDR) <= maxTx.
Proof.
  intros Hn Hm Hle.
  apply (getIdeal_invariant (fun t _ => 0 <= t <= maxTx) maxTx maxDR);
    [| assumption | assumption].
  clear - Hm. intros n tx dr Hle.
  int_bounds. pass_cases; lia.
Qed.

(** ** The handler as a whole *)

Lemma to_int_is_int unrepresentable x :
  GoInt.is_int (F32.to_int unrepresentable x) = true.
Proof.
  destruct x as [s | s | | s m e]; cbn [F32.to_int];
    try apply wrap_is_int; try reflexivity.
  destruct (GoInt.is_int (F32.trunc s m e)) eqn:E;
    [exact E | apply wrap_is_int].
Qed.

Lemma nStepOf_is_int unrepresentable req :
  GoInt.is_int (nStepOf unrepresentable req) = true.
Proof. apply to_int_is_int. Qed.

Lemma Handle_enabled unrepresentable req :
  HandleRequest.ADR req = true ->
  Handle unrepresentable req =
  let dr0 := Z.min (HandleRequest.DR req) (HandleRequest.MaxDR req) in
  let tx0 := HandleRequest.TxPowerIndex req in
  let nb :=
    getNbTrans (HandleRequest.NbTrans req) (getPacketLossPercentage req) in
  let nStep := nStepOf unrepresentable req in
  if (nStep <? 0) && negb (getHistoryCount req =? requiredHistoryCount)
  then (HandleResponse.mk dr0 tx0 nb, nil_error)
  else
    let r :=
      getIdealTxPowerIndexAndDR nStep tx0 dr0
        (HandleRequest.MaxTxPowerIndex req) (HandleRequest.MaxDR req) in
    (HandleResponse.mk (snd r) (fst r) nb, nil_error).
Proof.
  intros E. unfold Handle. rewrite E. cbn [negb]. cbv zeta.
  destruct (Z.gtb_spec (HandleRequest.DR req) (HandleRequest.MaxDR req)).
  - rewrite Z.min_r by lia. cbn [HandleResponse.DR HandleResponse.TxPowerIndex
                                  HandleResponse.NbTrans].
    destruct (_ && _); [reflexivity |].
    destruct (getIdealTxPowerIndexAndDR _ _ _ _ _); reflexivity.
  - rewrite Z.min_l by lia. cbn [HandleResponse.DR HandleResponse.TxPowerIndex
                                  HandleResponse.NbTrans].
    destruct (_ && _); [reflexivity |].
    destruct (getIdealTxPowerIndexAndDR _ _ _ _ _); reflexivity.
Qed.

Lemma request_typed_fields req :
  request_typed req = true ->
  GoInt.is_int (HandleRequest.DR req) = true
  /\ GoInt.is_int (HandleRequest.TxPowerIndex req) = true
  /\ GoInt.is_int (HandleRequest.NbTrans req) = true
  /\ GoInt.is_int (HandleRequest.MaxTxPowerIndex req) = true
  /\ GoInt.is_int (HandleRequest.MaxDR req) = true
  /\ Z.of_nat (length (HandleRequest.UplinkHistory req)) <= GoInt.max_int
  /\ Forall (fun m => uplink_typed m = true) (HandleRequest.UplinkHistory req).
Proof.
  unfold request_typed. rewrite !andb_true_iff, Z.leb_le, forallb_forall.
  rewrite Forall_forall. tauto.
Qed.

Lemma Handle_disabled unrepresentable req :
  HandleRequest.ADR req = false ->
  Handle unrepresentable req =
  (HandleResponse.mk (HandleRequest.DR req) (HandleRequest.TxPowerIndex req)
     (HandleRequest.NbTrans req), nil_error).
Proof. intros E. unfold Handle. rewrite E. reflexivity. Qed.

(** C2.  With ADR disabled the response is the request's current
    configuration, field for field, and no error. *)
Theorem Handle_adr_disabled_passthrough unrepresentable req :
  HandleRequest.ADR req = false ->
  Handle unrepresentable req =
  (HandleResponse.mk (HandleRequest.DR req) (HandleRequest.TxPowerIndex req)
     (HandleRequest.NbTrans req), nil_error).
Proof. intros E. unfold Handle. rewrite E. cbn [negb]. reflexivity. Qed.

Lemma getIdeal_tx_between maxTx maxDR n tx dr :
  GoInt.is_int n = true -> GoInt.is_int tx = true ->
  GoInt.is_int maxTx = true ->
  Z.min 0 tx <= fst (getIdealTxPowerIndexAndDR n tx dr maxTx maxDR)
    <= Z.max tx maxTx.
Proof.
  intros Hn Ht Hm.
  apply (getIdeal_invariant
           (fun t _ => Z.min 0 tx <= t <= Z.max tx maxTx) maxTx maxDR);
    [| assumption | lia].
  clear - Ht Hm. intros n t d Hle.
  int_bounds. pass_cases; lia.
Qed.

(** C1, as amended.  The data rate of the response is at most [MaxDR]
    whenever ADR is enabled or the request's data rate already was; the
    TX power index of the response is within [0, MaxTxPowerIndex] whenever
    the request's was; and whatever the request's TX power index is, the
    response's lies between the lesser of 0 and it and the greater of it and
    [MaxTxPowerIndex]. *)
Theorem Handle_result_bounds unrepresentable req :
  request_typed req = true ->
  let resp := fst (Handle unrepresentable req) in
  (HandleRequest.ADR req = true
   \/ HandleRequest.DR req <= HandleRequest.MaxDR req ->
   HandleResponse.DR resp <= HandleRequest.MaxDR req)
  /\ (0 <= HandleRequest.TxPowerIndex req <= HandleRequest.MaxTxPowerIndex req ->
      0 <= HandleResponse.TxPowerIndex resp
        <= HandleRequest.MaxTxPowerIndex req)
  /\ Z.min 0 (HandleRequest.TxPowerIndex req)
     <= HandleResponse.TxPowerIndex resp
     <= Z.max (HandleRequest.TxPowerIndex req)
          (HandleRequest.MaxTxPowerIndex req).
Proof.
  intros T resp. subst resp.
  destruct (request_typed_fields req T) as (Hdr & Htx & _ & Hmt & Hmd & _).
  pose proof (nStepOf_is_int unrepresentable req) as Hn.
  destruct (HandleRequest.ADR req) eqn:E.
  - rewrite (Handle_enabled unrepresentable req E). cbv zeta.
    destruct (_ && _); cbn [fst HandleResponse.DR HandleResponse.TxPowerIndex].
    + split; [| split]; intros; lia.
    + split; [| split]; intros.
      * apply getIdeal_dr_le_max; try assumption.
        -- int_bounds. lia.
        -- lia.
      * apply getIdeal_tx_bounds; assumption.
      * apply getIdeal_tx_between; assumption.
  - rewrite (Handle_disabled unrepresentable req E).
    cbn [fst HandleResponse.DR HandleResponse.TxPowerIndex].
    split; [intros [X | X]; [discriminate | exact X] |].
    split; [intros X; exact X | lia].
Qed.

(** ** Ordering of binary32 values *)

Lemma SFcompare_antisym (a b : float32) :
  SFcompare b a = option_map CompOpp (SFcompare a b).
Proof.
  destruct a as [sa | sa | | sa ma ea], b as [sb | sb | | sb mb eb];
    try destruct sa; try destruct sb; try reflexivity; cbn;
    rewrite (Z.compare_antisym ea eb);
    destruct (ea ?= eb); cbn; try reflexivity;
    rewrite <- (Pos.compare_cont_antisym _ _ Eq); cbn;
    rewrite ?CompOpp_involutive; reflexivity.
Qed.

Lemma le_not_gt (a b : float32) : F32.le a b = true -> F32.lt b a = false.
Proof.
  unfold F32.le, F32.lt, SFleb, SFltb. rewrite (SFcompare_antisym a b).
  destruct (SFcompare a b) as [[| |] |]; cbn; congruence.
Qed.

Ltac compare_cases :=
  repeat match goal with
    | |- context [Z.compare ?x ?y] =>
        destruct (Z.compare_spec x y); try subst; try lia; cbn
    | |- context [Pos.compare_cont Eq ?x ?y] =>
        change (Pos.compare_cont Eq x y) with (Pos.compare x y);
        destruct (Pos.compare_spec x y); try subst; try lia; cbn
    end;
  try (intros; first [reflexivity | discriminate | lia]).

Lemma le_trans (a b c : float32) :
  F32.le a b = true -> F32.le b c = true -> F32.le a c = true.
Proof.
  unfold F32.le, SFleb.
  destruct a as [sa | sa | | sa ma ea], b as [sb | sb | | sb mb eb],
    c as [sc | sc | | sc mc ec];
    try destruct sa; try destruct sb; try destruct sc; cbn;
    try (intros; first [reflexivity | discriminate]);
    compare_cases.
Qed.

Lemma lt_trans (a b c : float32) :
  F32.lt a b = true -> F32.lt b c = true -> F32.lt a c = true.
Proof.
  unfold F32.lt, SFltb.
  destruct a as [sa | sa | | sa ma ea], b as [sb | sb | | sb mb eb],
    c as [sc | sc | | sc mc ec];
    try destruct sa; try destruct sb; try destruct sc; cbn;
    try (intros; first [reflexivity | discriminate]);
    compare_cases.
Qed.

(** ** Rounding to binary32 *)

Lemma digits2_pos_bounds n :
  2 ^ (Z.pos (digits2_pos n) - 1) <= Z.pos n < 2 ^ Z.pos (digits2_pos n).
Proof.
  induction n as [n IH | n IH |]; cbn [digits2_pos].
  - rewrite Pos2Z.inj_succ. change (Z.pos n~1) with (2 * Z.pos n + 1).
    replace (Z.succ (Z.pos (digits2_pos n)) - 1)
      with (Z.succ (Z.pos (digits2_pos n) - 1)) by lia.
    rewrite !Z.pow_succ_r by lia.
    generalize dependent (2 ^ (Z.pos (digits2_pos n) - 1)).
    generalize (2 ^ Z.pos (digits2_pos n)). intros; lia.
  - rewrite Pos2Z.inj_succ. change (Z.pos n~0) with (2 * Z.pos n).
    replace (Z.succ (Z.pos (digits2_pos n)) - 1)
      with (Z.succ (Z.pos (digits2_pos n) - 1)) by lia.
    rewrite !Z.pow_succ_r by lia.
    generalize dependent (2 ^ (Z.pos (digits2_pos n) - 1)).
    generalize (2 ^ Z.pos (digits2_pos n)). intros; lia.
  - cbn. lia.
Qed.

Lemma Zdigits2_le m D :
  0 < m -> 0 <= D -> m < 2 ^ D -> Zdigits2 m <= D.
Proof.
  intros Hm HD Hlt. destruct m as [| n | n]; try lia. cbn [Zdigits2].
  pose proof (digits2_pos_bounds n) as [Hlo _].
  assert (H : 2 ^ (Z.pos (digits2_pos n) - 1) < 2 ^ D) by lia.
  apply Z.pow_lt_mono_r_iff in H; lia.
Qed.

Lemma Zdigits2_pos m : 0 < m -> 0 < Zdigits2 m.
Proof. destruct m; cbn; lia. Qed.

Lemma Zdigits2_lower m : 0 < m -> 2 ^ (Zdigits2 m - 1) <= m < 2 ^ Zdigits2 m.
Proof.
  destruct m as [| n | n]; try lia. intros _. apply digits2_pos_bounds.
Qed.

Lemma digits2_pos_shift n k :
  digits2_pos (Pos.iter xO n k) = (digits2_pos n + k)%positive.
Proof.
  induction k as [| k IH] using Pos.peano_ind.
  - cbn. lia.
  - rewrite Pos.iter_succ. cbn [digits2_pos]. rewrite IH. lia.
Qed.

Lemma shr_1_m mrs : 0 <= shr_m mrs -> shr_m (shr_1 mrs) = shr_m mrs / 2.
Proof.
  destruct mrs as [m r s]. cbn [shr_m]. intros H.
  rewrite <- Z.div2_div.
  destruct m as [| q | q]; try lia; [reflexivity |].
  destruct q; reflexivity.
Qed.

Lemma iter_shr_1_m p :
  forall mrs, 0 <= shr_m mrs ->
    shr_m (iter_pos shr_1 p mrs) = shr_m mrs / 2 ^ Z.pos p.
Proof.
  induction p as [p IH | p IH |]; intros mrs H; cbn [iter_pos].
  - assert (H1 : 0 <= shr_m (shr_1 mrs))
      by (rewrite shr_1_m by exact H; apply Z.div_pos; lia).
    assert (H2 : 0 <= shr_m (iter_pos shr_1 p (shr_1 mrs))).
    { rewrite IH by exact H1. apply Z.div_pos; [exact H1 |].
      apply Z.pow_pos_nonneg; lia. }
    rewrite IH by exact H2. rewrite IH by exact H1. rewrite shr_1_m by exact H.
    assert (0 < 2 ^ Z.pos p) by (apply Z.pow_pos_nonneg; lia).
    rewrite !Zdiv_Zdiv by lia.
    f_equal. change (Z.pos p~1) with (2 * Z.pos p + 1).
    replace (2 * Z.pos p + 1) with (1 + Z.pos p + Z.pos p) by lia.
    rewrite !Z.pow_add_r by lia. lia.
  - assert (H2 : 0 <= shr_m (iter_pos shr_1 p mrs)).
    { rewrite IH by exact H. apply Z.div_pos; [exact H |].
      apply Z.pow_pos_nonneg; lia. }
    rewrite IH by exact H2. rewrite IH by exact H.
    assert (0 < 2 ^ Z.pos p) by (apply Z.pow_pos_nonneg; lia).
    rewrite !Zdiv_Zdiv by lia.
    f_equal. change (Z.pos p~0) with (2 * Z.pos p).
    replace (2 * Z.pos p) with (Z.pos p + Z.pos p) by lia.
    rewrite !Z.pow_add_r by lia. lia.
  - rewrite shr_1_m by exact H. reflexivity.
Qed.

Lemma shr_record_of_loc_m m l : shr_m (shr_record_of_loc m l) = m.
Proof. destruct l as [| c]; [| destruct c]; reflexivity. Qed.

Lemma round_nearest_even_bounds m l :
  m <= round_nearest_even m l <= m + 1.
Proof.
  destruct l as [| c]; [| destruct c]; cbn [round_nearest_even];
    try destruct (Z.even m); lia.
Qed.

(** What [shr_fexp] does to a positive mantissa away from the subnormal
    range: it drops the digits beyond the 24th. *)
Lemma shr_fexp_normal m e l :
  0 < m -> -149 <= Zdigits2 m + e - 24 ->
  let p := Zdigits2 m - 24 in
  shr_m (fst (shr_fexp 24 128 m e l)) = (if 0 <? p then m / 2 ^ p else m)
  /\ snd (shr_fexp 24 128 m e l) = (if 0 <? p then e + p else e).
Proof.
  intros Hm He p. unfold shr_fexp.
  replace (fexp 24 128 (Zdigits2 m + e) - e) with p
    by (unfold fexp, emin; subst p; lia).
  unfold shr. destruct p as [| k | k] eqn:Ep; cbn [fst snd Z.ltb Z.compare].
  - rewrite shr_record_of_loc_m. split; reflexivity.
  - rewrite iter_shr_1_m by (rewrite shr_record_of_loc_m; lia).
    rewrite shr_record_of_loc_m. split; reflexivity.
  - rewrite shr_record_of_loc_m. split; reflexivity.
Qed.

Lemma shr_fexp_nonneg m e l :
  0 <= m -> 0 <= shr_m (fst (shr_fexp 24 128 m e l)).
Proof.
  intros Hm. unfold shr_fexp, shr.
  destruct (fexp 24 128 (Zdigits2 m + e) - e) as [| k | k]; cbn [fst];
    try (rewrite shr_record_of_loc_m; exact Hm).
  rewrite iter_shr_1_m by (rewrite shr_record_of_loc_m; exact Hm).
  rewrite shr_record_of_loc_m. apply Z.div_pos; [exact Hm |].
  apply Z.pow_pos_nonneg; lia.
Qed.

Lemma binary_round_aux_not_nan s mx ex lx :
  0 <= mx -> binary_round_aux 24 128 s mx ex lx <> S754_nan.
Proof.
  intros Hm. unfold binary_round_aux.
  pose proof (shr_fexp_nonneg mx ex lx Hm) as H1.
  destruct (shr_fexp 24 128 mx ex lx) as [mrs' e']. cbn [fst] in H1.
  pose proof (round_nearest_even_bounds (shr_m mrs') (loc_of_shr_record mrs'))
    as H2.
  pose proof (shr_fexp_nonneg
                (round_nearest_even (shr_m mrs') (loc_of_shr_record mrs'))
                e' loc_Exact ltac:(lia)) as H3.
  destruct (shr_fexp 24 128 _ e' loc_Exact) as [mrs'' e'']. cbn [fst] in H3.
  destruct (shr_m mrs'') as [| q | q]; try lia; try discriminate.
  destruct (e'' <=? 128 - 24); discriminate.
Qed.

Lemma pow2_le a b : 0 <= a <= b -> 2 ^ a <= 2 ^ b.
Proof. intros H. apply Z.pow_le_mono_r; lia. Qed.

Lemma binary_round_aux_finite s mx ex lx :
  0 < mx -> -124 <= ex -> ex + Z.max 0 (Zdigits2 mx - 24) + 1 <= 104 ->
  exists m e, binary_round_aux 24 128 s mx ex lx = S754_finite s m e.
Proof.
  intros Hm Hlo Hhi. unfold binary_round_aux.
  pose proof (Zdigits2_pos mx Hm) as HD.
  pose proof (Zdigits2_lower mx Hm) as [HDlo HDhi].
  destruct (shr_fexp_normal mx ex lx Hm ltac:(lia)) as [M1 E1].
  cbv zeta in M1, E1.
  destruct (shr_fexp 24 128 mx ex lx) as [mrs' e']. cbn [fst snd] in M1, E1.
  set (m' := shr_m mrs') in *.
  assert (Hm' : 0 < m' < 2 ^ 24).
  { destruct (Z.ltb_spec 0 (Zdigits2 mx - 24)) as [P | P]; rewrite M1.
    - assert (0 < 2 ^ (Zdigits2 mx - 24)) by (apply Z.pow_pos_nonneg; lia).
      split.
      + apply Z.div_str_pos. split; [lia |].
        pose proof (pow2_le (Zdigits2 mx - 24) (Zdigits2 mx - 1) ltac:(lia)).
        lia.
      + apply Z.div_lt_upper_bound; [lia |].
        rewrite <- Z.pow_add_r by lia.
        replace (Zdigits2 mx - 24 + 24) with (Zdigits2 mx) by lia. exact HDhi.
    - split; [lia |].
      pose proof (pow2_le (Zdigits2 mx) 24 ltac:(lia)). lia. }
  assert (He' : ex <= e' <= ex + Z.max 0 (Zdigits2 mx - 24)).
  { destruct (Z.ltb_spec 0 (Zdigits2 mx - 24)); lia. }
  pose proof (round_nearest_even_bounds m' (loc_of_shr_record mrs')) as Hr.
  set (m'' := round_nearest_even m' (loc_of_shr_record mrs')) in *.
  assert (Hm'' : 0 < m'' <= 2 ^ 24) by lia.
  pose proof (Zdigits2_pos m'' ltac:(lia)) as HD''.
  pose proof (Zdigits2_lower m'' ltac:(lia)) as [HD''lo HD''hi].
  assert (HD''25 : Zdigits2 m'' <= 25).
  { apply Zdigits2_le; lia. }
  destruct (shr_fexp_normal m'' e' loc_Exact ltac:(lia) ltac:(lia)) as [M2 E2].
  cbv zeta in M2, E2.
  destruct (shr_fexp 24 128 m'' e' loc_Exact) as [mrs'' e''].
  cbn [fst snd] in M2, E2.
  assert (Hf : 0 < shr_m mrs'').
  { rewrite M2. destruct (Z.ltb_spec 0 (Zdigits2 m'' - 24)) as [Q | Q];
      [| lia].
    assert (Zdigits2 m'' = 25) by lia.
    replace (Zdigits2 m'' - 24) with 1 by lia.
    replace (Zdigits2 m'' - 1) with 24 in HD''lo by lia.
    apply Z.div_str_pos. change (2 ^ 1) with 2.
    change (2 ^ 24) with 16777216 in *. lia. }
  assert (Hef : e'' <= 104).
  { rewrite E2. destruct (Z.ltb_spec 0 (Zdigits2 m'' - 24)); lia. }
  destruct (shr_m mrs'') as [| q | q]; try lia.
  change (128 - 24) with 104.
  rewrite (proj2 (Z.leb_le _ _) Hef).
  exists q, e''. reflexivity.
Qed.

Lemma of_Z_finite z :
  0 < z < 2 ^ 63 -> exists m e, F32.of_Z z = S754_finite false m e.
Proof.
  intros Hz. unfold F32.of_Z, F32.prec, F32.emax.
  destruct z as [| n | n]; try lia.
  cbn [binary_normalize]. unfold binary_round.
  pose proof (Zdigits2_pos (Z.pos n) ltac:(lia)) as HD.
  pose proof (Zdigits2_le (Z.pos n) 63 ltac:(lia) ltac:(lia) ltac:(lia)) as HD63.
  cbn [Zdigits2] in HD, HD63.
  replace (fexp 24 128 (Z.pos (digits2_pos n) + 0))
    with (Z.pos (digits2_pos n) - 24) by (unfold fexp, emin; lia).
  unfold shl_align.
  destruct (Z.pos (digits2_pos n) - 24 - 0) as [| k | k] eqn:Ek.
  - apply binary_round_aux_finite; cbn [Zdigits2]; lia.
  - apply binary_round_aux_finite; cbn [Zdigits2]; lia.
  - apply binary_round_aux_finite; cbn [Zdigits2];
      rewrite ?digits2_pos_shift; lia.
Qed.

Lemma Zdigits2_eq m D :
  2 ^ (D - 1) <= m < 2 ^ D -> 0 < D -> Zdigits2 m = D.
Proof.
  intros [Hlo Hhi] HD.
  assert (Hm : 0 < m).
  { assert (0 < 2 ^ (D - 1)) by (apply Z.pow_pos_nonneg; lia). lia. }
  pose proof (Zdigits2_le m D Hm ltac:(lia) Hhi) as Hle.
  pose proof (Zdigits2_lower m Hm) as [_ Hup].
  pose proof (Zdigits2_pos m Hm) as Hp.
  assert (H : 2 ^ (D - 1) < 2 ^ Zdigits2 m) by lia.
  apply Z.pow_lt_mono_r_iff in H; lia.
Qed.

Lemma Zdigits2_mono a b : 0 < a <= b -> Zdigits2 a <= Zdigits2 b.
Proof.
  intros H.
  pose proof (Zdigits2_lower a ltac:(lia)) as [Ha _].
  pose proof (Zdigits2_lower b ltac:(lia)) as [_ Hb].
  pose proof (Zdigits2_pos a ltac:(lia)).
  pose proof (Zdigits2_pos b ltac:(lia)).
  assert (X : 2 ^ (Zdigits2 a - 1) < 2 ^ Zdigits2 b) by lia.
  apply Z.pow_lt_mono_r_iff in X; lia.
Qed.

(** Rounding a mantissa of at least 24 digits gives an infinity or a normal
    number, whose exponent is the one of the input raised by the number of
    digits dropped, or one more. *)
Lemma binary_round_aux_normal s mx ex lx :
  0 < mx -> 24 <= Zdigits2 mx -> -124 <= ex ->
  binary_round_aux 24 128 s mx ex lx = S754_infinity s
  \/ exists m e,
       binary_round_aux 24 128 s mx ex lx = S754_finite s m e
       /\ 2 ^ 23 <= Z.pos m < 2 ^ 24
       /\ ex + (Zdigits2 mx - 24) <= e <= ex + (Zdigits2 mx - 24) + 1.
Proof.
  intros Hm HD24 Hlo. unfold binary_round_aux.
  pose proof (Zdigits2_lower mx Hm) as [HDlo HDhi].
  destruct (shr_fexp_normal mx ex lx Hm ltac:(lia)) as [M1 E1].
  cbv zeta in M1, E1.
  destruct (shr_fexp 24 128 mx ex lx) as [mrs' e']. cbn [fst snd] in M1, E1.
  set (m' := shr_m mrs') in *.
  assert (Hm' : 2 ^ 23 <= m' < 2 ^ 24).
  { destruct (Z.ltb_spec 0 (Zdigits2 mx - 24)) as [P | P]; rewrite M1.
    - assert (0 < 2 ^ (Zdigits2 mx - 24)) by (apply Z.pow_pos_nonneg; lia).
      split.
      + apply Z.div_le_lower_bound; [lia |].
        rewrite <- Z.pow_add_r by lia.
        replace (Zdigits2 mx - 24 + 23) with (Zdigits2 mx - 1) by lia.
        exact HDlo.
      + apply Z.div_lt_upper_bound; [lia |].
        rewrite <- Z.pow_add_r by lia.
        replace (Zdigits2 mx - 24 + 24) with (Zdigits2 mx) by lia. exact HDhi.
    - replace (Zdigits2 mx) with 24 in * by lia.
      change (24 - 1) with 23 in HDlo. lia. }
  assert (He' : e' = ex + (Zdigits2 mx - 24)).
  { destruct (Z.ltb_spec 0 (Zdigits2 mx - 24)); lia. }
  pose proof (round_nearest_even_bounds m' (loc_of_shr_record mrs')) as Hr.
  set (m'' := round_nearest_even m' (loc_of_shr_record mrs')) in *.
  change (2 ^ 23) with 8388608 in *. change (2 ^ 24) with 16777216 in *.
  destruct (shr_fexp_normal m'' e' loc_Exact ltac:(lia)) as [M2 E2].
  { pose proof (Zdigits2_pos m'' ltac:(lia)). lia. }
  cbv zeta in M2, E2.
  destruct (shr_fexp 24 128 m'' e' loc_Exact) as [mrs'' e''].
  cbn [fst snd] in M2, E2.
  destruct (Z_lt_dec m'' 16777216) as [Hlt | Hge].
  - assert (D : Zdigits2 m'' = 24)
      by (apply Zdigits2_eq; [change (2 ^ (24 - 1)) with 8388608;
                               change (2 ^ 24) with 16777216 |]; lia).
    rewrite D in M2, E2.
    change (0 <? 24 - 24) with false in M2, E2. cbv iota in M2, E2.
    rewrite M2. destruct m'' as [| q | q]; try lia.
    change (128 - 24) with 104.
    destruct (Z.leb_spec e'' 104); [right | left; reflexivity].
    exists q, e''. repeat split; lia.
  - assert (Em : m'' = 16777216) by lia.
    assert (D : Zdigits2 m'' = 25) by (rewrite Em; reflexivity).
    rewrite D in M2, E2.
    change (0 <? 25 - 24) with true in M2, E2. cbv iota in M2, E2.
    change (25 - 24) with 1 in M2, E2.
    rewrite M2, Em. change (16777216 / 2 ^ 1) with 8388608.
    change (128 - 24) with 104.
    destruct (Z.leb_spec e'' 104); [right | left; reflexivity].
    exists 8388608%positive, e''. repeat split; lia.
Qed.

Lemma binary_round_aux_exact s m ex :
  Zdigits2 (Z.pos m) = 24 -> -124 <= ex <= 104 ->
  binary_round_aux 24 128 s (Z.pos m) ex loc_Exact = S754_finite s m ex.
Proof.
  intros D He. unfold binary_round_aux, shr_fexp.
  rewrite D.
  replace (fexp 24 128 (24 + ex) - ex) with 0 by (unfold fexp, emin; lia).
  cbn [shr shr_record_of_loc shr_m loc_of_shr_record round_nearest_even].
  rewrite D.
  replace (fexp 24 128 (24 + ex) - ex) with 0 by (unfold fexp, emin; lia).
  cbn [shr shr_record_of_loc shr_m].
  change (128 - 24) with 104.
  rewrite (proj2 (Z.leb_le ex 104)) by lia. reflexivity.
Qed.

Lemma of_Z_small n :
  0 < n < 2 ^ 24 ->
  exists m,
    binary_normalize 24 128 n 0 false = S754_finite false m (Zdigits2 n - 24)
    /\ 2 ^ 23 <= Z.pos m < 2 ^ 24.
Proof.
  intros Hn. destruct n as [| n | n]; try lia.
  cbn [binary_normalize]. unfold binary_round.
  pose proof (Zdigits2_pos (Z.pos n) ltac:(lia)) as HD.
  pose proof (Zdigits2_le (Z.pos n) 24 ltac:(lia) ltac:(lia) ltac:(lia)) as HD24.
  pose proof (digits2_pos_bounds n) as [Hlo Hhi].
  cbn [Zdigits2] in *.
  replace (fexp 24 128 (Z.pos (digits2_pos n) + 0))
    with (Z.pos (digits2_pos n) - 24) by (unfold fexp, emin; lia).
  unfold shl_align.
  destruct (Z.pos (digits2_pos n) - 24 - 0) as [| k | k] eqn:Ek; try lia.
  - exists n. replace (Z.pos (digits2_pos n) - 24) with 0 by lia.
    split.
    + apply binary_round_aux_exact; cbn [Zdigits2]; lia.
    + replace (Z.pos (digits2_pos n)) with 24 in * by lia.
      change (24 - 1) with 23 in Hlo. lia.
  - exists (Pos.iter xO n k). split.
    + apply binary_round_aux_exact; cbn [Zdigits2];
        rewrite ?digits2_pos_shift; lia.
    + pose proof (digits2_pos_bounds (Pos.iter xO n k)) as [Hlo' Hhi'].
      rewrite digits2_pos_shift in Hlo', Hhi'.
      replace (Z.pos (digits2_pos n + k)) with 24 in * by lia.
      change (24 - 1) with 23 in Hlo'. lia.
Qed.

Lemma of_Z_normal z :
  0 < z < 2 ^ 32 ->
  exists m e,
    binary_normalize 24 128 z 0 false = S754_finite false m e
    /\ 2 ^ 23 <= Z.pos m < 2 ^ 24
    /\ Zdigits2 z - 24 <= e.
Proof.
  intros Hz.
  destruct (Z_lt_dec z (2 ^ 24)) as [S | S].
  - destruct (of_Z_small z ltac:(lia)) as (m & E & B).
    exists m, (Zdigits2 z - 24). repeat split; try assumption; lia.
  - destruct (of_Z_finite z ltac:(lia)) as (m & e & E).
    unfold F32.of_Z, F32.prec, F32.emax in E.
    destruct z as [| n | n]; try lia.
    cbn [binary_normalize] in *. unfold binary_round in *.
    assert (D24 : 24 <= Z.pos (digits2_pos n)).
    { pose proof (digits2_pos_bounds n) as [_ Hhi].
      destruct (Z_lt_dec (Z.pos (digits2_pos n)) 24) as [X | X]; [| lia].
      pose proof (pow2_le (Z.pos (digits2_pos n)) 23 ltac:(lia)).
      change (2 ^ 24) with (2 * 2 ^ 23) in S. lia. }
    replace (fexp 24 128 (Z.pos (digits2_pos n) + 0))
      with (Z.pos (digits2_pos n) - 24) in * by (unfold fexp, emin; lia).
    unfold shl_align in *.
    destruct (Z.pos (digits2_pos n) - 24 - 0) as [| k | k] eqn:Ek; try lia.
    + destruct (binary_round_aux_normal false (Z.pos n) 0 loc_Exact
                  ltac:(lia) ltac:(cbn [Zdigits2]; lia) ltac:(lia))
        as [Hinf | (m' & e' & E' & B & X)]; [congruence |].
      exists m', e'. cbn [Zdigits2] in *. repeat split; try assumption; lia.
    + destruct (binary_round_aux_normal false (Z.pos n) 0 loc_Exact
                  ltac:(lia) ltac:(cbn [Zdigits2]; lia) ltac:(lia))
        as [Hinf | (m' & e' & E' & B & X)]; [congruence |].
      exists m', e'. cbn [Zdigits2] in *. repeat split; try assumption; lia.
Qed.

Lemma Zdigits2_ge m D : 0 < D -> 2 ^ (D - 1) <= m -> D <= Zdigits2 m.
Proof.
  intros HD H.
  assert (Hm : 0 < m).
  { assert (0 < 2 ^ (D - 1)) by (apply Z.pow_pos_nonneg; lia). lia. }
  pose proof (Zdigits2_lower m Hm) as [_ Hup].
  pose proof (Zdigits2_pos m Hm).
  assert (X : 2 ^ (D - 1) < 2 ^ Zdigits2 m) by lia.
  apply Z.pow_lt_mono_r_iff in X; lia.
Qed.

(** A number of lost frames not below the number of entries gives a loss
    percentage whose binary32 exponent is at least -18, or an infinity. *)
Lemma heavy_loss L n :
  0 < n < 2 ^ 24 -> n <= L < 2 ^ 32 ->
  let loss := F32.mul (F32.div (F32.of_Z L) (F32.of_Z n)) (F32.of_Z 100) in
  loss = S754_infinity false
  \/ exists m e, loss = S754_finite false m e /\ -18 <= e.
Proof.
  intros Hn HL loss. subst loss.
  change (F32.of_Z 100) with (S754_finite false 13107200 (-17)).
  unfold F32.mul, F32.div, F32.of_Z, F32.prec, F32.emax.
  destruct (of_Z_normal L ltac:(lia)) as (m1 & e1 & E1 & B1 & X1).
  destruct (of_Z_small n Hn) as (m2 & E2 & B2).
  pose proof (Zdigits2_mono n L ltac:(lia)) as Hmono.
  pose proof (Zdigits2_pos n ltac:(lia)) as Hdn.
  pose proof (Zdigits2_le n 24 ltac:(lia) ltac:(lia) ltac:(lia)) as Hdn24.
  rewrite E1, E2. set (e2 := Zdigits2 n - 24) in *.
  cbn [SFdiv]. unfold SFdiv_core_binary.
  rewrite (Zdigits2_eq (Z.pos m1) 24) by (change (24 - 1) with 23; lia).
  rewrite (Zdigits2_eq (Z.pos m2) 24) by (change (24 - 1) with 23; lia).
  replace (Z.min (fexp 24 128 (24 + e1 - (24 + e2))) (e1 - e2))
    with (e1 - e2 - 24) by (unfold fexp, emin; lia).
  replace (e1 - e2 - (e1 - e2 - 24)) with 24 by lia.
  cbv iota. rewrite Z.shiftl_mul_pow2 by lia.
  change (2 ^ 23) with 8388608 in *. change (2 ^ 24) with 16777216 in *.
  assert (Hq : 8388608 <= Z.pos m1 * 16777216 / Z.pos m2).
  { apply Z.div_le_lower_bound; lia. }
  unfold Z.div in Hq.
  destruct (Z.div_eucl (Z.pos m1 * 16777216) (Z.pos m2)) as [q r].
  cbn [fst] in Hq. cbn [xorb].
  pose proof (Zdigits2_ge q 24 ltac:(lia) ltac:(change (2 ^ (24 - 1)) with 8388608; lia))
    as Dq.
  destruct (binary_round_aux_normal false q (e1 - e2 - 24)
              (new_location (Z.pos m2) r) ltac:(lia) Dq ltac:(lia))
    as [Hinf | (mq & eq & Eq & Bq & Xq)]; rewrite ?Hinf, ?Eq;
    cbn [SFmul xorb].
  - left. reflexivity.
  - change (2 ^ 23) with 8388608 in *. change (2 ^ 24) with 16777216 in *.
    pose proof (Zdigits2_ge (Z.pos (mq * 13107200)) 47 ltac:(lia)) as Dp.
    assert (Hp : 2 ^ (47 - 1) <= Z.pos (mq * 13107200)).
    { change (2 ^ (47 - 1)) with 70368744177664.
      rewrite Pos2Z.inj_mul. lia. }
    specialize (Dp Hp).
    destruct (binary_round_aux_normal false (Z.pos (mq * 13107200))
                (eq + -17) loc_Exact ltac:(lia) ltac:(lia) ltac:(lia))
      as [Hinf | (m & e & E & B & X)]; rewrite ?Hinf, ?E.
    + left. reflexivity.
    + right. exists m, e. split; [reflexivity | lia].
Qed.

Lemma heavy_loss_bands L n :
  0 < n < 2 ^ 24 -> n <= L < 2 ^ 32 ->
  let loss := F32.mul (F32.div (F32.of_Z L) (F32.of_Z n)) (F32.of_Z 100) in
  F32.lt loss (F32.of_Z 5) = false
  /\ F32.lt loss (F32.of_Z 10) = false
  /\ F32.lt loss (F32.of_Z 30) = false.
Proof.
  intros Hn HL loss.
  change (F32.of_Z 5) with (S754_finite false 10485760 (-21)).
  change (F32.of_Z 10) with (S754_finite false 10485760 (-20)).
  change (F32.of_Z 30) with (S754_finite false 15728640 (-19)).
  destruct (heavy_loss L n Hn HL) as [Hinf | (m & e & E & X)];
    fold loss in Hinf || fold loss in E.
  - rewrite Hinf. repeat split; reflexivity.
  - rewrite E. unfold F32.lt, SFltb. cbn [SFcompare].
    destruct (Z.compare_spec e (-21)); try lia;
      destruct (Z.compare_spec e (-20)); try lia;
      destruct (Z.compare_spec e (-19)); try lia;
      repeat split; reflexivity.
Qed.

Lemma binary_round_not_nan s m e : binary_round 24 128 s m e <> S754_nan.
Proof.
  unfold binary_round.
  destruct (shl_align m e (fexp 24 128 (Z.pos (digits2_pos m) + e)))
    as [mz ez].
  apply binary_round_aux_not_nan. lia.
Qed.

Lemma of_Z_not_nan z : F32.of_Z z <> S754_nan.
Proof.
  unfold F32.of_Z, F32.prec, F32.emax.
  destruct z; cbn [binary_normalize];
    [discriminate | apply binary_round_not_nan ..].
Qed.

Lemma div_finite_not_nan x s m e :
  x <> S754_nan -> F32.div x (S754_finite s m e) <> S754_nan.
Proof.
  intros Hx. unfold F32.div, F32.prec, F32.emax.
  destruct x as [sx | sx | | sx mx ex]; cbn [SFdiv];
    try discriminate; try congruence.
  unfold SFdiv_core_binary.
  set (m' := match _ - _ with Z0 => Z.pos mx | Z.pos _ => _ | Z.neg _ => 0 end).
  assert (Hm' : 0 <= m').
  { subst m'. destruct (_ - _); try lia. apply Z.shiftl_nonneg. lia. }
  pose proof (Z.div_pos m' (Z.pos m) Hm' ltac:(lia)) as Hq.
  unfold Z.div in Hq. destruct (Z.div_eucl m' (Z.pos m)) as [q r].
  cbn [fst] in Hq. apply binary_round_aux_not_nan. exact Hq.
Qed.

Lemma mul_finite_not_nan x s m e :
  x <> S754_nan -> F32.mul x (S754_finite s m e) <> S754_nan.
Proof.
  intros Hx. unfold F32.mul, F32.prec, F32.emax.
  destruct x as [sx | sx | | sx mx ex]; cbn [SFmul];
    try discriminate; try congruence.
  apply binary_round_aux_not_nan. lia.
Qed.

Lemma loss_percentage_not_nan req :
  request_typed req = true -> getPacketLossPercentage req <> S754_nan.
Proof.
  intros T. destruct (request_typed_fields req T) as (_ & _ & _ & _ & _ & L & _).
  unfold getPacketLossPercentage. cbv zeta. unfold requiredHistoryCount.
  destruct (Z.ltb_spec (Z.of_nat (length (HandleRequest.UplinkHistory req))) 20)
    as [H | H]; [discriminate |].
  destruct (of_Z_finite (Z.of_nat (length (HandleRequest.UplinkHistory req))))
    as (m & e & E); [unfold GoInt.max_int in L; lia |].
  rewrite E.
  change (F32.of_Z 100) with (S754_finite false 13107200 (-17)).
  apply mul_finite_not_nan, div_finite_not_nan, of_Z_not_nan.
Qed.

Lemma lt_or_ge (a b : float32) :
  a <> S754_nan -> b <> S754_nan ->
  F32.lt a b = true \/ F32.le b a = true.
Proof.
  intros Ha Hb. unfold F32.lt, F32.le, SFltb, SFleb.
  rewrite (SFcompare_antisym a b).
  destruct (SFcompare a b) as [[| |] |] eqn:E; cbn; auto.
  destruct a, b; cbn in E; congruence.
Qed.

Lemma loss_band (loss : float32) :
  loss <> S754_nan ->
  F32.lt loss (F32.of_Z 5) = true
  \/ (F32.le (F32.of_Z 5) loss = true /\ F32.lt loss (F32.of_Z 10) = true)
  \/ (F32.le (F32.of_Z 10) loss = true /\ F32.lt loss (F32.of_Z 30) = true)
  \/ F32.le (F32.of_Z 30) loss = true.
Proof.
  intros H.
  destruct (lt_or_ge loss (F32.of_Z 5) H (of_Z_not_nan 5)) as [L | G5];
    [auto |].
  destruct (lt_or_ge loss (F32.of_Z 10) H (of_Z_not_nan 10)) as [L | G10];
    [auto |].
  destruct (lt_or_ge loss (F32.of_Z 30) H (of_Z_not_nan 30)) as [L | G30];
    auto.
Qed.

(** ** Retransmission count *)

Lemma clamp_cases c :
  (if (if c <? 1 then 1 else c) >? 3 then 3 else (if c <? 1 then 1 else c))
  = clampNbTrans c.
Proof. unfold clampNbTrans. split_tests; lia. Qed.

Lemma clampNbTrans_range c :
  clampNbTrans c = 1 \/ clampNbTrans c = 2 \/ clampNbTrans c = 3.
Proof. unfold clampNbTrans. lia. Qed.

Lemma getNbTrans_rows c loss :
  getNbTrans c loss =
  if F32.lt loss (F32.of_Z 5) then row_entry [1; 1; 2] c
  else if F32.lt loss (F32.of_Z 10) then row_entry [1; 2; 3] c
  else if F32.lt loss (F32.of_Z 30) then row_entry [2; 3; 3] c
  else row_entry [3; 3; 3] c.
Proof.
  unfold getNbTrans. cbv zeta. rewrite clamp_cases. unfold row_entry.
  destruct (clampNbTrans_range c) as [E | [E | E]]; rewrite E;
    repeat (match goal with |- context [if ?b then _ else _] => destruct b end);
    reflexivity.
Qed.

(** C3.  The retransmission count selected for a current count and a loss
    percentage is the entry of the 4x3 table in the row of the loss band and
    the column of the current count clamped into [1,3]; the loss percentage
    computed for a request is never a NaN, so it lies in one of the four
    bands; a current count of 2 with a loss of 12 percent gives 3. *)
Theorem getNbTrans_table (currentNbTrans : Z) (loss : float32) :
  (F32.lt loss (F32.of_Z 5) = true ->
     getNbTrans currentNbTrans loss = row_entry [1; 1; 2] currentNbTrans)
  /\ (F32.le (F32.of_Z 5) loss = true -> F32.lt loss (F32.of_Z 10) = true ->
        getNbTrans currentNbTrans loss = row_entry [1; 2; 3] currentNbTrans)
  /\ (F32.le (F32.of_Z 10) loss = true -> F32.lt loss (F32.of_Z 30) = true ->
        getNbTrans currentNbTrans loss = row_entry [2; 3; 3] currentNbTrans)
  /\ (F32.le (F32.of_Z 30) loss = true ->
        getNbTrans currentNbTrans loss = row_entry [3; 3; 3] currentNbTrans)
  /\ (forall req, request_typed req = true ->
        let computed := getPacketLossPercentage req in
        F32.lt computed (F32.of_Z 5) = true
        \/ (F32.le (F32.of_Z 5) computed = true
            /\ F32.lt computed (F32.of_Z 10) = true)
        \/ (F32.le (F32.of_Z 10) computed = true
            /\ F32.lt computed (F32.of_Z 30) = true)
        \/ F32.le (F32.of_Z 30) computed = true)
  /\ getNbTrans 2 (F32.of_Z 12) = 3.
Proof.
  rewrite getNbTrans_rows.
  split; [| split; [| split; [| split; [| split]]]].
  - intros H. rewrite H. reflexivity.
  - intros H5 H10. rewrite (le_not_gt _ _ H5), H10. reflexivity.
  - intros H10 H30.
    assert (H5 : F32.le (F32.of_Z 5) loss = true)
      by (apply (le_trans _ (F32.of_Z 10)); [reflexivity | exact H10]).
    rewrite (le_not_gt _ _ H5), (le_not_gt _ _ H10), H30. reflexivity.
  - intros H30.
    assert (H10 : F32.le (F32.of_Z 10) loss = true)
      by (apply (le_trans _ (F32.of_Z 30)); [reflexivity | exact H30]).
    assert (H5 : F32.le (F32.of_Z 5) loss = true)
      by (apply (le_trans _ (F32.of_Z 10)); [reflexivity | exact H10]).
    rewrite (le_not_gt _ _ H5), (le_not_gt _ _ H10), (le_not_gt _ _ H30).
    reflexivity.
  - intros req T computed. apply loss_band, loss_percentage_not_nan, T.
  - vm_compute. reflexivity.
Qed.

(** ** Packet loss *)

Lemma wrap32_range z : 0 <= GoInt.wrap32 z < 2 ^ 32.
Proof. unfold GoInt.wrap32. apply Z.mod_pos_bound. lia. Qed.

Lemma wrap32_small z : 0 <= z < 2 ^ 32 -> GoInt.wrap32 z = z.
Proof. unfold GoInt.wrap32. intros H. apply Z.mod_small. exact H. Qed.

Lemma wrap32_accumulate lost b prev rest :
  GoInt.wrap32
    (GoInt.wrap32 (lost + GoInt.wrap32 (GoInt.wrap32 (b - prev) - 1)) + rest)
  = GoInt.wrap32 (lost + (b - prev - 1 + rest)).
Proof.
  unfold GoInt.wrap32.
  rewrite Zplus_mod_idemp_l.
  replace (lost + ((b - prev) mod 2 ^ 32 - 1) mod 2 ^ 32 + rest)
    with (lost + rest + ((b - prev) mod 2 ^ 32 - 1) mod 2 ^ 32) by lia.
  rewrite Zplus_mod_idemp_r.
  replace (lost + rest + ((b - prev) mod 2 ^ 32 - 1))
    with ((b - prev) mod 2 ^ 32 - (1 - lost - rest)) by lia.
  rewrite Zminus_mod_idemp_l.
  f_equal. lia.
Qed.

Lemma lostPacketsLoop_sum rest :
  forall i lost prev,
    0 <= lost < 2 ^ 32 ->
    lostPacketsLoop (S i) rest lost prev
    = GoInt.wrap32 (lost + lost_sum (prev :: map FCnt rest)).
Proof.
  induction rest as [| m rest IH]; intros i lost prev Hl.
  - cbn. rewrite Z.add_0_r, wrap32_small by exact Hl. reflexivity.
  - cbn [lostPacketsLoop map lost_sum].
    rewrite IH by apply wrap32_range.
    apply wrap32_accumulate.
Qed.

Lemma lostPackets_sum history :
  lostPacketsLoop 0 history 0 0 = GoInt.wrap32 (lost_sum (map FCnt history)).
Proof.
  destruct history as [| m rest].
  - reflexivity.
  - cbn [lostPacketsLoop]. rewrite lostPacketsLoop_sum by lia.
    reflexivity.
Qed.

Lemma lost_sum_cons a b l :
  lost_sum (a :: b :: l) = (b - a - 1) + lost_sum (b :: l).
Proof. reflexivity. Qed.

Lemma last_cons {A : Type} (l : list A) :
  forall a b, last (b :: l) a = last l b.
Proof.
  induction l as [| c l IH]; intros a b.
  - reflexivity.
  - change (last (b :: c :: l) a) with (last (c :: l) a).
    rewrite (IH a c). symmetry. apply (IH b c).
Qed.

Lemma lost_sum_telescope l :
  forall a, lost_sum (a :: l) = last l a - a - Z.of_nat (length l).
Proof.
  induction l as [| b l IH]; intros a.
  - cbn. lia.
  - rewrite lost_sum_cons, IH, last_cons. cbn [length]. lia.
Qed.

Lemma lost_sum_nonneg l : counters_increase l = true -> 0 <= lost_sum l.
Proof.
  induction l as [| a l IH]; [cbn; lia |].
  destruct l as [| b l]; [cbn; lia |].
  rewrite lost_sum_cons.
  change (counters_increase (a :: b :: l))
    with ((a + 1 <=? b) && counters_increase (b :: l)).
  rewrite andb_true_iff, Z.leb_le. intros [Hab Hrest].
  specialize (IH Hrest). lia.
Qed.

Lemma last_Forall (P : Z -> Prop) l :
  forall a, P a -> Forall P l -> P (last l a).
Proof.
  induction l as [| b l IH]; intros a Ha Hl.
  - exact Ha.
  - rewrite last_cons. inversion Hl; subst. apply IH; assumption.
Qed.

Lemma lost_sum_no_wrap l :
  Forall (fun c => 0 <= c < 2 ^ 32) l ->
  counters_increase l = true ->
  GoInt.wrap32 (lost_sum l) = lost_sum l.
Proof.
  intros Hr Hi. apply wrap32_small.
  pose proof (lost_sum_nonneg l Hi) as Hn.
  destruct l as [| a l]; [cbn; lia |].
  rewrite lost_sum_telescope in *.
  inversion Hr as [| ? ? Ha Hl]; subst.
  pose proof (last_Forall _ l a Ha Hl) as Hlast. cbv beta in Hlast.
  lia.
Qed.

Lemma history_fcnts_typed req :
  request_typed req = true ->
  Forall (fun c => 0 <= c < 2 ^ 32)
    (map FCnt (HandleRequest.UplinkHistory req)).
Proof.
  intros T. destruct (request_typed_fields req T) as (_ & _ & _ & _ & _ & _ & H).
  rewrite Forall_map. eapply Forall_impl; [| exact H].
  intros m Hm. unfold uplink_typed in Hm. apply andb_true_iff in Hm.
  destruct Hm as [Hm _]. apply is_uint32_spec in Hm. exact Hm.
Qed.

(** C4.  With fewer than 20 entries the loss percentage is exactly zero.
    With at least 20 entries whose frame counters go up by at least one from
    each entry to the next, it is the sum of [delta - 1] over the consecutive
    pairs, divided by the history length and multiplied by 100, the three
    conversions and the two operations being those of [float32]. *)
Theorem packet_loss_percentage req :
  request_typed req = true ->
  let history := HandleRequest.UplinkHistory req in
  let n := Z.of_nat (length history) in
  (n < 20 -> getPacketLossPercentage req = S754_zero false)
  /\ (20 <= n -> counters_increase (map FCnt history) = true ->
      getPacketLossPercentage req =
      F32.mul
        (F32.div (F32.of_Z (lost_sum (map FCnt history))) (F32.of_Z n))
        (F32.of_Z 100)).
Proof.
  intros T history n. subst history n. unfold getPacketLossPercentage.
  cbv zeta. unfold requiredHistoryCount. split.
  - intros H. rewrite (proj2 (Z.ltb_lt _ _) H). reflexivity.
  - intros H Hi. rewrite (proj2 (Z.ltb_ge _ _) H).
    rewrite lostPackets_sum, lost_sum_no_wrap; auto using history_fcnts_typed.
Qed.

Lemma lost_sum_app l1 :
  forall x l2,
    lost_sum (l1 ++ x :: l2) = lost_sum (l1 ++ [x]) + lost_sum (x :: l2).
Proof.
  induction l1 as [| a l1 IH]; intros x l2.
  - cbn [app]. change (lost_sum [x]) with 0. lia.
  - destruct l1 as [| b l1].
    + cbn [app]. rewrite !lost_sum_cons. change (lost_sum [x]) with 0. lia.
    + cbn [app] in *. rewrite !lost_sum_cons. rewrite (IH x l2). lia.
Qed.

Lemma lost_sum_consecutive l : counters_consecutive l = true -> lost_sum l = 0.
Proof.
  induction l as [| a l IH]; [reflexivity |].
  destruct l as [| b l]; [reflexivity |].
  rewrite lost_sum_cons.
  change (counters_consecutive (a :: b :: l))
    with ((b =? a + 1) && counters_consecutive (b :: l)).
  rewrite andb_true_iff, Z.eqb_eq. intros [Hab Hrest].
  rewrite (IH Hrest). lia.
Qed.

Lemma wrap32_add_r a b :
  GoInt.wrap32 (a + GoInt.wrap32 b) = GoInt.wrap32 (a + b).
Proof. unfold GoInt.wrap32. apply Zplus_mod_idemp_r. Qed.

Lemma wrap32_add_l a b :
  GoInt.wrap32 (GoInt.wrap32 a + b) = GoInt.wrap32 (a + b).
Proof. unfold GoInt.wrap32. apply Zplus_mod_idemp_l. Qed.

Lemma last_map_FCnt rest :
  forall first, last (map FCnt rest) (FCnt first) = FCnt (last rest first).
Proof.
  induction rest as [| b rest IH]; intros first.
  - reflexivity.
  - cbn [map]. rewrite !last_cons. apply IH.
Qed.

Lemma getNbTrans_heavy_loss c loss :
  F32.lt loss (F32.of_Z 5) = false ->
  F32.lt loss (F32.of_Z 10) = false ->
  F32.lt loss (F32.of_Z 30) = false ->
  getNbTrans c loss = 3.
Proof.
  intros H5 H10 H30. rewrite getNbTrans_rows, H5, H10, H30.
  unfold row_entry.
  destruct (clampNbTrans_range c) as [E | [E | E]]; rewrite E; reflexivity.
Qed.

(** C10, as amended.  The lost frames are accumulated modulo 2^32: appending
    an entry adds [(delta - 1) mod 2^32], which is [2^32 - 1] for a repeated
    counter; the total is [(last - first - (length - 1)) mod 2^32], so the
    contributions of later pairs can bring it back down.  In a history in
    which one counter is repeated and every other counter is one more than
    the one before, the total is [2^32 - 1].  For a history of at least 20 and
    fewer than 2^24 entries whose total is not below its length, the loss
    percentage is in the last band and the retransmission count selected
    is 3. *)
Theorem lost_packets_modulo req :
  let history := HandleRequest.UplinkHistory req in
  let n := Z.of_nat (length history) in
  let lost h := lostPacketsLoop 0 h 0 0 in
  lost history = (lost_sum (map FCnt history)) mod 2 ^ 32
  /\ (forall h prev m,
        lost (h ++ [prev; m])
        = (lost (h ++ [prev]) + (FCnt m - FCnt prev - 1) mod 2 ^ 32) mod 2 ^ 32)
  /\ (forall prev m, FCnt m = FCnt prev -> lost [prev; m] = 2 ^ 32 - 1)
  /\ (forall first rest, history = first :: rest ->
        lost history
        = (FCnt (last rest first) - FCnt first - Z.of_nat (length rest))
            mod 2 ^ 32)
  /\ ((exists l1 x l2,
          map FCnt history = l1 ++ x :: x :: l2
          /\ counters_consecutive (l1 ++ [x]) = true
          /\ counters_consecutive (x :: l2) = true) ->
      lost history = 2 ^ 32 - 1)
  /\ (20 <= n < 2 ^ 24 -> n <= lost history ->
      forall c, getNbTrans c (getPacketLossPercentage req) = 3).
Proof.
  intros history n lost. subst lost. cbv beta.
  split; [| split; [| split; [| split; [| split]]]].
  - apply lostPackets_sum.
  - intros h prev m. rewrite !lostPackets_sum.
    change ((?a + ?b mod 2 ^ 32) mod 2 ^ 32)
      with (GoInt.wrap32 (a + GoInt.wrap32 b)).
    rewrite wrap32_add_r, wrap32_add_l. f_equal.
    rewrite !map_app. cbn [map].
    rewrite (lost_sum_app (map FCnt h) (FCnt prev) [FCnt m]).
    rewrite lost_sum_cons. change (lost_sum [FCnt m]) with 0. lia.
  - intros prev m E. rewrite lostPackets_sum. cbn [map].
    rewrite lost_sum_cons, E. change (lost_sum [FCnt prev]) with 0.
    replace (FCnt prev - FCnt prev - 1 + 0) with (-1) by lia. reflexivity.
  - intros first rest E. rewrite lostPackets_sum, E. cbn [map].
    rewrite lost_sum_telescope, length_map, last_map_FCnt. reflexivity.
  - intros (l1 & x & l2 & Hfc & H1 & H2).
    rewrite lostPackets_sum, Hfc, lost_sum_app, lost_sum_cons.
    rewrite (lost_sum_consecutive _ H1), (lost_sum_consecutive _ H2).
    replace (0 + (x - x - 1 + 0)) with (-1) by lia. reflexivity.
  - intros Hn HL c.
    assert (Hlt : lostPacketsLoop 0 history 0 0 < 2 ^ 32)
      by (rewrite lostPackets_sum; apply wrap32_range).
    unfold getPacketLossPercentage. cbv zeta. fold history. fold n.
    unfold requiredHistoryCount. rewrite (proj2 (Z.ltb_ge n 20)) by lia.
    destruct (heavy_loss_bands (lostPacketsLoop 0 history 0 0) n
                ltac:(lia) ltac:(lia)) as (H5 & H10 & H30).
    apply getNbTrans_heavy_loss; assumption.
Qed.

(** ** The anti-oscillation guard *)

Lemma count_loop (p : UplinkMetaData -> bool) l :
  forall count,
    0 <= count -> count + Z.of_nat (length l) <= GoInt.max_int ->
    fold_left (fun c uh => if p uh then GoInt.incr c else c) l count
    = count + Z.of_nat (length (filter p l)).
Proof.
  induction l as [| uh l IH]; intros count H0 Hmax.
  - cbn. lia.
  - cbn [fold_left filter]. cbn [length] in Hmax.
    unfold GoInt.max_int in *.
    destruct (p uh).
    + rewrite incr_small by lia.
      rewrite IH by (unfold GoInt.max_int; lia).
      cbn [length]. lia.
    + rewrite IH by (unfold GoInt.max_int; lia). reflexivity.
Qed.

Lemma getHistoryCount_matching req :
  request_typed req = true -> getHistoryCount req = matching_count req.
Proof.
  intros T. destruct (request_typed_fields req T) as (_ & _ & _ & _ & _ & L & _).
  unfold getHistoryCount, matching_count.
  rewrite (count_loop
             (fun uh => HandleRequest.TxPowerIndex req =? TXPowerIndex uh))
    by lia.
  reflexivity.
Qed.

(** C5.  With ADR enabled, a negative number of steps and a number of
    history entries at the current TX power index other than 20, the
    response carries the data rate clamped to [MaxDR], the retransmission
    count of the lookup table and the request's TX power index. *)
Theorem Handle_guard_keeps_step3_result unrepresentable req :
  request_typed req = true ->
  HandleRequest.ADR req = true ->
  nStepOf unrepresentable req < 0 ->
  matching_count req <> 20 ->
  Handle unrepresentable req =
  (HandleResponse.mk
     (Z.min (HandleRequest.DR req) (HandleRequest.MaxDR req))
     (HandleRequest.TxPowerIndex req)
     (getNbTrans (HandleRequest.NbTrans req) (getPacketLossPercentage req)),
   nil_error).
Proof.
  intros T E Hn Hc. rewrite (Handle_enabled unrepresentable req E). cbv zeta.
  rewrite (getHistoryCount_matching req T).
  rewrite (proj2 (Z.ltb_lt _ _) Hn).
  unfold requiredHistoryCount. rewrite (proj2 (Z.eqb_neq _ _) Hc).
  reflexivity.
Qed.

(** ** The margin and the number of steps *)

Lemma lt_irrefl (a : float32) : F32.lt a a = false.
Proof.
  unfold F32.lt, SFltb.
  destruct a as [s | s | | s m e]; try destruct s; cbn; try reflexivity;
    rewrite Z.compare_refl, Pos.compare_cont_refl; reflexivity.
Qed.

Lemma maxSNR_loop l :
  forall acc,
    let r :=
      fold_left
        (fun snrM m => if F32.gt (MaxSNR m) snrM then MaxSNR m else snrM)
        l acc in
    (r = acc \/ F32.lt acc r = true)
    /\ (forall m, In m l -> F32.lt r (MaxSNR m) = false)
    /\ (r = acc \/ In r (map MaxSNR l)).
Proof.
  induction l as [| m l IH]; intros acc r.
  - subst r. cbn. repeat split; auto. intros m [].
  - subst r. cbn [fold_left map].
    set (acc' := if F32.gt (MaxSNR m) acc then MaxSNR m else acc).
    destruct (IH acc') as (Hge & Hup & Hin).
    set (r := fold_left _ l acc') in *.
    assert (Hacc : (acc' = acc /\ F32.lt acc (MaxSNR m) = false)
                   \/ (acc' = MaxSNR m /\ F32.lt acc (MaxSNR m) = true)).
    { subst acc'. unfold F32.gt. fold (F32.lt acc (MaxSNR m)).
      destruct (F32.lt acc (MaxSNR m)); auto. }
    assert (Hm : F32.lt acc' (MaxSNR m) = false).
    { destruct Hacc as [[-> H] | [-> _]]; [exact H | apply lt_irrefl]. }
    repeat split.
    + destruct Hacc as [[Ea _] | [Ea Hlt]]; rewrite Ea in Hge.
      * exact Hge.
      * right. destruct Hge as [-> | Hge]; [exact Hlt |].
        exact (lt_trans _ _ _ Hlt Hge).
    + intros m' [<- | Hm'].
      * destruct Hge as [-> | Hge]; [exact Hm |].
        destruct (F32.lt r (MaxSNR m)) eqn:X; [| reflexivity].
        rewrite (lt_trans _ _ _ Hge X) in Hm. discriminate.
      * apply Hup. exact Hm'.
    + destruct Hin as [-> | Hin].
      * destruct Hacc as [[-> _] | [-> _]]; [left | right; left]; reflexivity.
      * right. right. exact Hin.
Qed.

Lemma getMaxSNR_bounds req :
  (getMaxSNR req = F32.of_Z (-999)
   \/ F32.lt (F32.of_Z (-999)) (getMaxSNR req) = true)
  /\ (forall m, In m (HandleRequest.UplinkHistory req) ->
        F32.lt (getMaxSNR req) (MaxSNR m) = false)
  /\ (getMaxSNR req = F32.of_Z (-999)
      \/ In (getMaxSNR req) (map MaxSNR (HandleRequest.UplinkHistory req))).
Proof.
  exact (maxSNR_loop (HandleRequest.UplinkHistory req) (F32.of_Z (-999))).
Qed.

Lemma trunc_truncates s m e : truncated_toward_zero s m e (F32.trunc s m e).
Proof.
  unfold truncated_toward_zero, F32.trunc. cbv zeta.
  destruct (Z.leb_spec 0 e) as [He | He].
  - exists (Z.pos m * 2 ^ e). split; [| split; [| split]].
    + apply Z.mul_nonneg_nonneg; [lia | apply Z.pow_nonneg; lia].
    + destruct s; cbn [cond_Zopp]; lia.
    + reflexivity.
    + lia.
  - assert (Hd : 0 < 2 ^ (- e)) by (apply Z.pow_pos_nonneg; lia).
    exists (Z.pos m / 2 ^ (- e)). split; [| split; [| split]].
    + apply Z.div_pos; lia.
    + destruct s; cbn [cond_Zopp].
      * change (- Z.pos m) with (- (Z.pos m)).
        rewrite Z.quot_opp_l by lia.
        rewrite Z.quot_div_nonneg by lia. reflexivity.
      * rewrite Z.quot_div_nonneg by lia. reflexivity.
    + lia.
    + intros _. split.
      * rewrite Z.mul_comm. apply Z.mul_div_le. lia.
      * rewrite Z.mul_comm. apply Z.mul_succ_div_gt. lia.
Qed.

Lemma binary_round_aux_sign s mx ex lx :
  0 <= mx -> float_sign_is s (binary_round_aux 24 128 s mx ex lx).
Proof.
  intros Hm. unfold binary_round_aux.
  pose proof (shr_fexp_nonneg mx ex lx Hm) as H1.
  destruct (shr_fexp 24 128 mx ex lx) as [mrs' e']. cbn [fst] in H1.
  pose proof (round_nearest_even_bounds (shr_m mrs') (loc_of_shr_record mrs'))
    as H2.
  pose proof (shr_fexp_nonneg
                (round_nearest_even (shr_m mrs') (loc_of_shr_record mrs'))
                e' loc_Exact ltac:(lia)) as H3.
  destruct (shr_fexp 24 128 _ e' loc_Exact) as [mrs'' e'']. cbn [fst] in H3.
  destruct (shr_m mrs'') as [| q | q]; try lia; [exact I |].
  destruct (e'' <=? 128 - 24); reflexivity.
Qed.

Lemma binary_normalize_sign z e :
  float_sign_is (z <? 0) (binary_normalize 24 128 z e false).
Proof.
  destruct z as [| n | n]; cbn [binary_normalize]; [exact I | |];
    unfold binary_round;
    destruct (shl_align n e (fexp 24 128 (Z.pos (digits2_pos n) + e)))
      as [mz ez];
    apply binary_round_aux_sign; lia.
Qed.

Lemma pos_iter_xO m d : Z.pos (Pos.iter xO m d) = Z.pos m * 2 ^ Z.pos d.
Proof.
  induction d as [| d IH] using Pos.peano_ind.
  - cbn [Pos.iter]. change (Z.pos m~0) with (2 * Z.pos m). lia.
  - rewrite Pos.iter_succ, Pos2Z.inj_succ, Z.pow_succ_r by lia.
    change (Z.pos (Pos.iter xO m d)~0) with (2 * Z.pos (Pos.iter xO m d)).
    rewrite IH. lia.
Qed.

Lemma shl_align_value m e ez :
  ez <= e -> Z.pos (fst (shl_align m e ez)) = Z.pos m * 2 ^ (e - ez).
Proof.
  intros H. unfold shl_align.
  destruct (ez - e) as [| d | d] eqn:E; cbn [fst]; try lia.
  - replace (e - ez) with 0 by lia. lia.
  - rewrite pos_iter_xO. replace (e - ez) with (Z.pos d) by lia. reflexivity.
Qed.

Lemma sub_nonpos_nonneg (a b : float32) :
  float_nonpos a -> float_nonneg b -> float_nonpos (F32.sub a b).
Proof.
  unfold float_nonpos, float_nonneg, F32.sub, F32.prec, F32.emax.
  destruct a as [sa | sa | | sa ma ea], b as [sb | sb | | sb mb eb];
    cbn [float_sign_is SFsub]; intros Ha Hb; subst; try tauto.
  all: try (cbn [float_sign_is negb]; reflexivity).
  - destruct sa, sb; exact I.
  - cbv zeta.
    match goal with
    | |- float_sign_is true (binary_normalize 24 128 ?z ?e false) =>
        pose proof (binary_normalize_sign z e) as S;
        replace (z <? 0) with true in S; [exact S |]
    end.
    symmetry. apply Z.ltb_lt. cbn [cond_Zopp]. lia.
Qed.

Lemma div_three_nonpos (a : float32) :
  float_nonpos a -> float_nonpos (F32.div a (F32.of_Z 3)).
Proof.
  change (F32.of_Z 3) with (S754_finite false 12582912 (-22)).
  unfold float_nonpos, F32.div, F32.prec, F32.emax.
  destruct a as [sa | sa | | sa ma ea]; cbn [float_sign_is SFdiv];
    intros Ha; subst; try tauto; try reflexivity.
  unfold SFdiv_core_binary.
  set (m' := match _ - _ with Z0 => Z.pos ma | Z.pos _ => _ | Z.neg _ => 0 end).
  assert (Hm' : 0 <= m').
  { subst m'. destruct (_ - _); try lia. apply Z.shiftl_nonneg. lia. }
  pose proof (Z.div_pos m' (Z.pos 12582912) Hm' ltac:(lia)) as Hq.
  unfold Z.div in Hq. destruct (Z.div_eucl m' (Z.pos 12582912)) as [q r].
  cbn [fst] in Hq. apply (binary_round_aux_sign true). exact Hq.
Qed.

Lemma valid_digits s m e :
  float_valid (S754_finite s m e) = true -> Z.pos m < 2 ^ 24.
Proof.
  unfold float_valid, valid_binary, bounded, canonical_mantissa, fexp, emin,
    F32.prec, F32.emax.
  rewrite andb_true_iff, Z.eqb_eq. intros [H _].
  pose proof (digits2_pos_bounds m) as [_ Hhi].
  pose proof (pow2_le (Z.pos (digits2_pos m)) 24 ltac:(lia)). lia.
Qed.

Lemma le_negative_finite m1 e1 m2 e2 :
  F32.le (S754_finite true m1 e1) (S754_finite true m2 e2) = true ->
  e2 < e1 \/ (e1 = e2 /\ Z.pos m2 <= Z.pos m1).
Proof.
  unfold F32.le, SFleb. cbn [SFcompare].
  destruct (Z.compare_spec e1 e2) as [E | E | E].
  - change (Pos.compare_cont Eq m1 m2) with (Pos.compare m1 m2).
    destruct (Pos.compare_spec m1 m2) as [P | P | P]; cbn [CompOpp];
      intros L; try discriminate L; right; split; lia.
  - discriminate.
  - left. lia.
Qed.

(** The sentinel minus a required SNR that is not below it. *)
Lemma sentinel_sub_nonpos (r : float32) :
  float_valid r = true -> F32.le (F32.of_Z (-999)) r = true ->
  float_nonpos (F32.sub (F32.of_Z (-999)) r).
Proof.
  change (F32.of_Z (-999)) with (S754_finite true 16367616 (-14)).
  intros V L. unfold float_nonpos, F32.sub, F32.prec, F32.emax.
  destruct r as [sr | sr | | sr mr er]; cbn [float_sign_is SFsub].
  - reflexivity.
  - destruct sr; [discriminate L | reflexivity].
  - discriminate L.
  - cbv zeta.
    match goal with
    | |- float_sign_is true (binary_normalize 24 128 ?z ?e false) =>
        pose proof (binary_normalize_sign z e) as S;
        assert (Hz : z <= 0)
    end.
    { rewrite !shl_align_value by lia. cbn [cond_Zopp].
      destruct sr; cbn [cond_Zopp].
      - pose proof (valid_digits _ _ _ V) as Hd.
        destruct (le_negative_finite _ _ _ _ L) as [E | [E P]].
        + rewrite Z.min_r by lia. rewrite Z.sub_diag, Z.mul_1_r.
          assert (2 <= 2 ^ (-14 - er)).
          { change 2 with (2 ^ 1) at 1. apply pow2_le. lia. }
          change (2 ^ 24) with 16777216 in Hd. nia.
        + subst er. rewrite Z.min_id, Z.sub_diag, !Z.mul_1_r. lia.
      - assert (0 < 2 ^ (-14 - Z.min (-14) er))
          by (apply Z.pow_pos_nonneg; lia).
        assert (0 < 2 ^ (er - Z.min (-14) er))
          by (apply Z.pow_pos_nonneg; lia).
        nia. }
    destruct (Z.ltb_spec
                (cond_Zopp true
                   (Z.pos (fst (shl_align 16367616 (-14) (Z.min (-14) er))))
                 - cond_Zopp sr
                     (Z.pos (fst (shl_align mr er (Z.min (-14) er))))) 0)
      as [N | N].
    + exact S.
    + replace (cond_Zopp true
                 (Z.pos (fst (shl_align 16367616 (-14) (Z.min (-14) er))))
               - cond_Zopp sr
                   (Z.pos (fst (shl_align mr er (Z.min (-14) er)))))
        with 0 by lia.
      exact I.
Qed.

Lemma to_int_nonpos unrepresentable (q : float32) :
  float_nonpos q -> fits_int q = true -> F32.to_int unrepresentable q <= 0.
Proof.
  unfold float_nonpos.
  destruct q as [s | s | | s m e]; cbn [float_sign_is fits_int F32.to_int];
    intros Hs Hf; try discriminate Hf; [lia |].
  cbv zeta. rewrite Hf. subst s. unfold F32.trunc. cbv zeta.
  cbn [cond_Zopp].
  destruct (Z.leb_spec 0 e).
  - assert (0 < 2 ^ e) by (apply Z.pow_pos_nonneg; lia). nia.
  - assert (0 < 2 ^ (- e)) by (apply Z.pow_pos_nonneg; lia).
    apply Z.quot_le_upper_bound; lia.
Qed.

(** C7, as amended.  The maximum SNR is the sentinel -999 or the [MaxSNR] of
    a history entry; it is not below the sentinel nor below the [MaxSNR] of
    any entry, and it is the sentinel for an empty history.  The number of
    steps is the [float32] quotient of the margin by 3 with its fraction
    discarded, whenever that quotient is finite and fits an [int].  For an
    empty history, a required SNR that is not below the sentinel and an
    installation margin that is not negative, the margin and the quotient are
    not positive, and neither is the number of steps when the quotient fits
    an [int].  For an empty history and a number of steps that is not
    positive, the response's data rate is not above the request's and its TX
    power index is the request's. *)
Theorem nStep_from_margin unrepresentable req :
  let history := HandleRequest.UplinkHistory req in
  let snrM := getMaxSNR req in
  let snrMargin :=
    F32.sub (F32.sub snrM (HandleRequest.RequiredSNRForDR req))
      (HandleRequest.InstallationMargin req) in
  let quotient := F32.div snrMargin (F32.of_Z 3) in
  let nStep := nStepOf unrepresentable req in
  let resp := fst (Handle unrepresentable req) in
  (history = [] -> snrM = F32.of_Z (-999))
  /\ (snrM = F32.of_Z (-999) \/ In snrM (map MaxSNR history))
  /\ F32.lt snrM (F32.of_Z (-999)) = false
  /\ (forall m, In m history -> F32.lt snrM (MaxSNR m) = false)
  /\ (forall s, quotient = S754_zero s -> nStep = 0)
  /\ (forall s m e,
        quotient = S754_finite s m e ->
        GoInt.is_int (F32.trunc s m e) = true ->
        truncated_toward_zero s m e nStep)
  /\ (history = [] ->
      float_valid (HandleRequest.RequiredSNRForDR req) = true ->
      F32.le (F32.of_Z (-999)) (HandleRequest.RequiredSNRForDR req) = true ->
      float_nonneg (HandleRequest.InstallationMargin req) ->
      float_nonpos snrMargin /\ float_nonpos quotient
      /\ (fits_int quotient = true -> nStep <= 0))
  /\ (history = [] -> nStep <= 0 ->
      HandleResponse.DR resp <= HandleRequest.DR req
      /\ HandleResponse.TxPowerIndex resp = HandleRequest.TxPowerIndex req).
Proof.
  intros history snrM snrMargin quotient nStep resp.
  destruct (getMaxSNR_bounds req) as (Hge & Hup & Hin).
  assert (Q : nStep = F32.to_int unrepresentable quotient) by reflexivity.
  assert (Hempty : history = [] -> snrM = F32.of_Z (-999)).
  { intros E. subst snrM history. unfold getMaxSNR. rewrite E. reflexivity. }
  assert (Hsign : history = [] ->
            float_valid (HandleRequest.RequiredSNRForDR req) = true ->
            F32.le (F32.of_Z (-999)) (HandleRequest.RequiredSNRForDR req)
            = true ->
            float_nonneg (HandleRequest.InstallationMargin req) ->
            float_nonpos snrMargin /\ float_nonpos quotient).
  { intros E V L N. subst quotient snrMargin. rewrite (Hempty E).
    pose proof (sub_nonpos_nonneg _ _ (sentinel_sub_nonpos _ V L) N) as M.
    split; [exact M | apply div_three_nonpos; exact M]. }
  clearbody quotient snrMargin. subst snrM history.
  split; [| split; [| split; [| split; [| split; [| split; [| split]]]]]].
  - exact Hempty.
  - exact Hin.
  - destruct Hge as [-> | Hge]; [apply lt_irrefl |].
    destruct (F32.lt (getMaxSNR req) (F32.of_Z (-999))) eqn:X;
      [| reflexivity].
    pose proof (lt_trans _ _ _ Hge X) as Y.
    rewrite lt_irrefl in Y. discriminate.
  - exact Hup.
  - intros s E. rewrite Q, E. reflexivity.
  - intros s m e E R. rewrite Q, E.
    cbn [F32.to_int]. cbv zeta. rewrite R. apply trunc_truncates.
  - intros E V L N. destruct (Hsign E V L N) as [M D].
    split; [exact M | split; [exact D |]].
    intros F. rewrite Q. apply to_int_nonpos; assumption.
  - intros E Hn. subst resp.
    destruct (HandleRequest.ADR req) eqn:A.
    + rewrite (Handle_enabled unrepresentable req A). cbv zeta.
      fold nStep.
      assert (C : getHistoryCount req = 0).
      { unfold getHistoryCount. rewrite E. reflexivity. }
      rewrite C. unfold requiredHistoryCount.
      destruct (Z.ltb_spec nStep 0) as [L | L]; cbn [andb negb Z.eqb fst].
      * cbn [HandleResponse.DR HandleResponse.TxPowerIndex]. lia.
      * assert (Z : nStep = 0) by lia. rewrite Z.
        rewrite getIdeal_unfold. cbn [Z.eqb fst snd].
        cbn [HandleResponse.DR HandleResponse.TxPowerIndex]. lia.
    + rewrite (Handle_disabled unrepresentable req A).
      cbn [fst HandleResponse.DR HandleResponse.TxPowerIndex]. lia.
Qed.

(** C8, as amended.  With ADR enabled the retransmission count of the
    response is 1, 2 or 3, whatever the request's count; with ADR disabled it
    is the request's count. *)
Theorem Handle_nbTrans_range unrepresentable req :
  let nbTrans := HandleResponse.NbTrans (fst (Handle unrepresentable req)) in
  if HandleRequest.ADR req
  then nbTrans = 1 \/ nbTrans = 2 \/ nbTrans = 3
  else nbTrans = HandleRequest.NbTrans req.
Proof.
  intros nbTrans. subst nbTrans.
  destruct (HandleRequest.ADR req) eqn:A.
  - rewrite (Handle_enabled unrepresentable req A). cbv zeta.
    assert (R : forall c loss,
               getNbTrans c loss = 1 \/ getNbTrans c loss = 2
               \/ getNbTrans c loss = 3).
    { intros c loss. rewrite getNbTrans_rows. unfold row_entry.
      destruct (clampNbTrans_range c) as [E | [E | E]]; rewrite E;
        repeat (match goal with
                | |- context [if ?b then _ else _] => destruct b
                end);
        cbn; auto. }
    destruct (_ && _); cbn [fst HandleResponse.NbTrans]; apply R.
  - rewrite (Handle_disabled unrepresentable req A). reflexivity.
Qed.

(** ** The claims that fail, and instances of those that hold *)

(** C1 fails: with ADR disabled the out-of-range request comes back as it
    is, data rate 7 above the maximum 5 and TX power index 9 above 5. *)
Lemma Handle_result_bounds_counterexample :
  let req := req_disabled_out_of_range in
  let resp := fst (Handle amd64 req) in
  request_typed req = true
  /\ ~ (HandleResponse.DR resp <= HandleRequest.MaxDR req
        /\ 0 <= HandleResponse.TxPowerIndex resp
           <= HandleRequest.MaxTxPowerIndex req).
Proof. cbv zeta. split; [reflexivity |]. vm_compute. intros [H _]. apply H. reflexivity. Qed.

Lemma Handle_result_bounds_witness :
  let req := req_good_link in
  let resp := fst (Handle amd64 req) in
  HandleResponse.DR resp <= 5 /\ 0 <= HandleResponse.TxPowerIndex resp <= 5.
Proof.
  cbv zeta.
  destruct (Handle_result_bounds amd64 req_good_link eq_refl) as (Hd & Ht & _).
  split.
  - apply Hd. left. reflexivity.
  - apply Ht. cbn. lia.
Defined.

(** A TX power index outside the range may come back inside it: 9 above the
    maximum 5 comes back as 1 after eight steps down, and -1 comes back as 3
    after four steps up at the highest data rate. *)
Lemma Handle_out_of_range_tx_moves :
  HandleResponse.TxPowerIndex (fst (Handle amd64 req_tx_above_max)) = 1
  /\ HandleResponse.TxPowerIndex (fst (Handle amd64 req_tx_below_zero)) = 3.
Proof. split; vm_compute; reflexivity. Qed.

Lemma Handle_adr_disabled_passthrough_witness :
  Handle amd64 req_disabled_out_of_range = (HandleResponse.mk 7 9 0, nil_error).
Proof.
  exact (Handle_adr_disabled_passthrough amd64 req_disabled_out_of_range
           eq_refl).
Defined.

Lemma getNbTrans_table_witness :
  getNbTrans 2 (F32.of_Z 12) = row_entry [2; 3; 3] 2.
Proof.
  destruct (getNbTrans_table 2 (F32.of_Z 12)) as (_ & _ & H & _).
  apply H; reflexivity.
Defined.

Lemma packet_loss_percentage_witness :
  getPacketLossPercentage req_two_lost
  = F32.mul (F32.div (F32.of_Z 2) (F32.of_Z 20)) (F32.of_Z 100).
Proof.
  destruct (packet_loss_percentage req_two_lost eq_refl) as [_ H].
  apply H.
  - vm_compute. discriminate.
  - reflexivity.
Defined.

Lemma Handle_guard_keeps_step3_result_witness :
  Handle amd64 req_21_matching = (HandleResponse.mk 5 1 1, nil_error).
Proof.
  apply (Handle_guard_keeps_step3_result amd64 req_21_matching).
  - reflexivity.
  - reflexivity.
  - vm_compute. reflexivity.
  - vm_compute. discriminate.
Defined.

(** C7 fails twice.  With no history, a required SNR of -1002 dB and no
    installation margin, the margin is 3 dB, the number of steps is 1 and the
    data rate is raised from 0 to 1.  With a single history entry of SNR
    -1000 dB the maximum SNR used is the sentinel -999, which is the SNR of
    no entry. *)
Lemma nStep_from_margin_counterexample :
  (let req := req_empty_history_low_required_snr in
   let resp := fst (Handle amd64 req) in
   HandleRequest.UplinkHistory req = []
   /\ ~ (nStepOf amd64 req <= 0)
   /\ ~ (HandleResponse.DR resp <= HandleRequest.DR req))
  /\ (let req := req_history_below_sentinel in
      HandleRequest.UplinkHistory req <> []
      /\ ~ In (getMaxSNR req) (map MaxSNR (HandleRequest.UplinkHistory req))).
Proof.
  cbv zeta. split; [split; [reflexivity |] | split; [discriminate |]].
  - split; vm_compute; intros H; apply H; reflexivity.
  - vm_compute. intros [H | []]. discriminate H.
Qed.

Lemma nStep_from_margin_witness :
  let req := req_empty_history in
  let resp := fst (Handle amd64 req) in
  nStepOf amd64 req <= 0
  /\ HandleResponse.DR resp <= 3 /\ HandleResponse.TxPowerIndex resp = 2.
Proof.
  cbv zeta.
  destruct (nStep_from_margin amd64 req_empty_history)
    as (_ & _ & _ & _ & _ & _ & Hsign & Hresp).
  assert (N : nStepOf amd64 req_empty_history <= 0).
  { apply Hsign; reflexivity. }
  split; [exact N |].
  apply Hresp; [reflexivity | exact N].
Defined.

(** C8 fails: with ADR disabled a request with a retransmission count of 0
    gets 0 back. *)
Lemma Handle_nbTrans_range_counterexample :
  let nbTrans :=
    HandleResponse.NbTrans (fst (Handle amd64 req_disabled_out_of_range)) in
  ~ (nbTrans = 1 \/ nbTrans = 2 \/ nbTrans = 3).
Proof. vm_compute. intros [H | [H | H]]; discriminate H. Qed.


(** C10 fails: 20 entries, the second repeating the counter of the first,
    the third skipping one: the two contributions cancel modulo 2^32, the
    loss is zero and the retransmission count stays 1. *)
Lemma lost_packets_modulo_counterexample :
  let req := req_repeat_then_gap in
  let history := HandleRequest.UplinkHistory req in
  request_typed req = true
  /\ length history = 20%nat
  /\ FCnt (nth 1 history (mkUplinkMetaData 0 S754_nan 0))
     - FCnt (nth 0 history (mkUplinkMetaData 0 S754_nan 0)) <= 0
  /\ lostPacketsLoop 0 history 0 0 = 0
  /\ ~ (getNbTrans (HandleRequest.NbTrans req) (getPacketLossPercentage req)
        = 3).
Proof.
  cbv zeta. split; [| split; [| split; [| split]]].
  - reflexivity.
  - reflexivity.
  - vm_compute. discriminate.
  - reflexivity.
  - vm_compute. discriminate.
Qed.

Lemma lost_packets_modulo_witness :
  lostPacketsLoop 0 (HandleRequest.UplinkHistory req_one_repeat) 0 0
  = 2 ^ 32 - 1
  /\ forall c, getNbTrans c (getPacketLossPercentage req_one_repeat) = 3.
Proof.
  destruct (lost_packets_modulo req_one_repeat) as (_ & _ & _ & _ & Hr & Hh).
  assert (L : lostPacketsLoop 0 (HandleRequest.UplinkHistory req_one_repeat)
                0 0 = 2 ^ 32 - 1).
  { apply Hr.
    exists [], 1,
      [2; 3; 4; 5; 6; 7; 8; 9; 10; 11; 12; 13; 14; 15; 16; 17; 18; 19].
    repeat split; reflexivity. }
  split; [exact L |].
  apply Hh.
  - cbn. lia.
  - rewrite L. cbn. lia.
Defined.


(** ** The step application in closed form *)

Lemma getIdeal_raise_once n tx dr maxTx maxDR :
  GoInt.is_int n = true -> GoInt.is_int tx = true -> GoInt.is_int dr = true ->
  GoInt.is_int maxTx = true -> GoInt.is_int maxDR = true ->
  0 < n ->
  getIdealTxPowerIndexAndDR n tx dr maxTx maxDR
  = getIdealTxPowerIndexAndDR (n - 1)
      (fst (raise_result 1 tx dr maxTx maxDR))
      (snd (raise_result 1 tx dr maxTx maxDR)) maxTx maxDR.
Proof.
  intros Hn Ht Hd Hmt Hmd Hpos. int_bounds.
  unfold raise_result. cbv zeta. cbn [fst snd].
  one_pass n; f_equal; lia.
Qed.

Lemma getIdeal_lower_once n tx dr maxTx maxDR :
  GoInt.is_int n = true -> GoInt.is_int tx = true -> GoInt.is_int dr = true ->
  n < 0 ->
  getIdealTxPowerIndexAndDR n tx dr maxTx maxDR
  = getIdealTxPowerIndexAndDR (n + 1)
      (fst (lower_result 1 tx dr)) (snd (lower_result 1 tx dr)) maxTx maxDR.
Proof.
  intros Hn Ht Hd Hneg. int_bounds.
  unfold lower_result. cbv zeta.
  one_pass n; cbn [fst snd]; f_equal; lia.
Qed.

Lemma raise_result_succ n tx dr maxTx maxDR :
  0 <= n ->
  raise_result (n + 1) tx dr maxTx maxDR
  = raise_result n (fst (raise_result 1 tx dr maxTx maxDR))
      (snd (raise_result 1 tx dr maxTx maxDR)) maxTx maxDR.
Proof.
  intros H. unfold raise_result. cbn [fst snd].
  destruct (Z_lt_dec dr maxDR) as [D | D].
  - rewrite (Z.max_r dr (Z.min maxDR (dr + 1))) by lia.
    rewrite (Z.min_r maxDR (dr + 1)) by lia.
    replace (1 - (dr + 1 - dr)) with 0 by lia.
    rewrite (Z.max_l tx (Z.min maxTx (tx + 0))) by lia.
    f_equal; lia.
  - rewrite (Z.max_l dr (Z.min maxDR (dr + 1))) by lia.
    rewrite (Z.max_l dr (Z.min maxDR (dr + n))) by lia.
    rewrite (Z.max_l dr (Z.min maxDR (dr + (n + 1)))) by lia.
    f_equal; lia.
Qed.

Lemma lower_result_succ m tx dr :
  0 <= m ->
  lower_result (m + 1) tx dr
  = lower_result m (fst (lower_result 1 tx dr)) (snd (lower_result 1 tx dr)).
Proof.
  intros H. unfold lower_result.
  destruct (Z.ltb_spec tx 0); cbn [fst snd].
  - destruct (Z.ltb_spec tx 0); [reflexivity | lia].
  - destruct (Z.ltb_spec (Z.max 0 (tx - 1)) 0); [lia |]. f_equal; lia.
Qed.

Lemma raise_result_is_int n tx dr maxTx maxDR :
  GoInt.is_int tx = true -> GoInt.is_int dr = true ->
  GoInt.is_int maxTx = true -> GoInt.is_int maxDR = true ->
  0 <= n ->
  GoInt.is_int (fst (raise_result n tx dr maxTx maxDR)) = true
  /\ GoInt.is_int (snd (raise_result n tx dr maxTx maxDR)) = true.
Proof.
  intros Ht Hd Hmt Hmd Hn. unfold raise_result. cbn [fst snd].
  split; int_bounds; lia.
Qed.

Lemma lower_result_is_int m tx dr :
  GoInt.is_int tx = true -> GoInt.is_int dr = true -> 0 <= m ->
  GoInt.is_int (fst (lower_result m tx dr)) = true
  /\ GoInt.is_int (snd (lower_result m tx dr)) = true.
Proof.
  intros Ht Hd Hm. unfold lower_result.
  destruct (Z.ltb_spec tx 0); cbn [fst snd]; split; int_bounds; lia.
Qed.

Lemma getIdeal_raise_nat maxTx maxDR k :
  GoInt.is_int maxTx = true -> GoInt.is_int maxDR = true ->
  forall tx dr,
    GoInt.is_int (Z.of_nat k) = true ->
    GoInt.is_int tx = true -> GoInt.is_int dr = true ->
    getIdealTxPowerIndexAndDR (Z.of_nat k) tx dr maxTx maxDR
    = raise_result (Z.of_nat k) tx dr maxTx maxDR.
Proof.
  intros Hmt Hmd. induction k as [| k IH]; intros tx dr Hk Ht Hd.
  - rewrite getIdeal_unfold. cbn [Z.of_nat Z.eqb].
    unfold raise_result. f_equal; lia.
  - rewrite Nat2Z.inj_succ in *. unfold Z.succ in *.
    rewrite getIdeal_raise_once by (try assumption; lia).
    replace (Z.of_nat k + 1 - 1) with (Z.of_nat k) by lia.
    destruct (raise_result_is_int 1 tx dr maxTx maxDR Ht Hd Hmt Hmd ltac:(lia))
      as [Ht1 Hd1].
    rewrite IH; try assumption.
    + symmetry. apply raise_result_succ. lia.
    + int_bounds. lia.
Qed.

Lemma getIdeal_lower_nat maxTx maxDR k :
  forall tx dr,
    GoInt.is_int (- Z.of_nat k) = true ->
    GoInt.is_int tx = true -> GoInt.is_int dr = true ->
    getIdealTxPowerIndexAndDR (- Z.of_nat k) tx dr maxTx maxDR
    = lower_result (Z.of_nat k) tx dr.
Proof.
  induction k as [| k IH]; intros tx dr Hk Ht Hd.
  - rewrite getIdeal_unfold. cbn [Z.of_nat Z.eqb Z.opp].
    unfold lower_result. destruct (Z.ltb_spec tx 0); f_equal; lia.
  - rewrite Nat2Z.inj_succ in *. unfold Z.succ in *.
    rewrite getIdeal_lower_once by (try assumption; lia).
    replace (- (Z.of_nat k + 1) + 1) with (- Z.of_nat k) by lia.
    destruct (lower_result_is_int 1 tx dr Ht Hd ltac:(lia)) as [Ht1 Hd1].
    rewrite IH; try assumption.
    + symmetry. apply lower_result_succ. lia.
    + int_bounds. lia.
Qed.

Lemma getIdeal_raise n tx dr maxTx maxDR :
  GoInt.is_int n = true -> GoInt.is_int tx = true -> GoInt.is_int dr = true ->
  GoInt.is_int maxTx = true -> GoInt.is_int maxDR = true ->
  0 <= n ->
  getIdealTxPowerIndexAndDR n tx dr maxTx maxDR
  = raise_result n tx dr maxTx maxDR.
Proof.
  intros Hn Ht Hd Hmt Hmd Hpos.
  rewrite <- (Z2Nat.id n Hpos) in *.
  apply getIdeal_raise_nat; assumption.
Qed.

Lemma getIdeal_lower n tx dr maxTx maxDR :
  GoInt.is_int n = true -> GoInt.is_int tx = true -> GoInt.is_int dr = true ->
  n <= 0 ->
  getIdealTxPowerIndexAndDR n tx dr maxTx maxDR = lower_result (- n) tx dr.
Proof.
  intros Hn Ht Hd Hneg.
  replace n with (- Z.of_nat (Z.to_nat (- n))) at 1
    by (rewrite Z2Nat.id; lia).
  rewrite getIdeal_lower_nat; try assumption.
  - rewrite Z2Nat.id by lia. reflexivity.
  - rewrite Z2Nat.id by lia. rewrite Z.opp_involutive. exact Hn.
Qed.

(** X1.  On a stack that holds its nested calls, a non-negative number of
    steps raises the data rate up to the maximum first and spends what is
    left on raising the TX power index up to its maximum; from a configuration
    within the maxima, as many steps as there is room, or more, end at both
    maxima.  On a stack that does not hold them the call does not return. *)
Theorem getIdeal_raises_dr_then_txpower
  (frames : nat) (nStep txPowerIndex dr maxTxPowerIndex maxDR : Z) :
  GoInt.is_int nStep = true ->
  GoInt.is_int txPowerIndex = true ->
  GoInt.is_int dr = true ->
  GoInt.is_int maxTxPowerIndex = true ->
  GoInt.is_int maxDR = true ->
  0 <= nStep ->
  let call :=
    getIdealTxPowerIndexAndDR_on_stack frames nStep txPowerIndex dr
      maxTxPowerIndex maxDR in
  (nStep < Z.of_nat frames ->
     call = Some (raise_result nStep txPowerIndex dr maxTxPowerIndex maxDR)
     /\ (dr <= maxDR -> txPowerIndex <= maxTxPowerIndex ->
         (maxDR - dr) + (maxTxPowerIndex - txPowerIndex) <= nStep ->
         call = Some (maxTxPowerIndex, maxDR)))
  /\ (Z.of_nat frames <= nStep -> call = None).
Proof.
  intros Hn Ht Hd Hmt Hmd Hpos call. subst call.
  split.
  - intros Hf. rewrite on_stack_returns by (try assumption; lia).
    rewrite getIdeal_raise by assumption.
    split; [reflexivity |].
    intros Hdr Htx Hroom. unfold raise_result.
    rewrite (Z.min_l maxDR (dr + nStep)) by lia.
    rewrite (Z.max_r dr maxDR) by lia.
    do 2 f_equal. lia.
  - intros Hf. apply on_stack_overflows; [assumption | lia].
Qed.

Lemma getIdeal_raises_witness :
  getIdealTxPowerIndexAndDR_on_stack 10 9 1 3 3 5 = Some (3, 5)
  /\ getIdealTxPowerIndexAndDR_on_stack 9 9 1 3 3 5 = None.
Proof.
  split.
  - apply (getIdeal_raises_dr_then_txpower 10 9 1 3 3 5);
      try reflexivity; cbn; lia.
  - apply (getIdeal_raises_dr_then_txpower 9 9 1 3 3 5);
      try reflexivity; cbn; lia.
Defined.

(** X2.  On a stack that holds its nested calls, a non-positive number of
    steps lowers the TX power index down to 0 first and spends what is left
    on lowering the data rate down to 0; the two maxima play no part, a
    negative TX power index blocks every change, and enough steps end at
    index 0 and rate 0.  On a stack that does not hold them the call does
    not return. *)
Theorem getIdeal_lowers_txpower_then_dr
  (frames : nat) (nStep txPowerIndex dr maxTxPowerIndex maxDR : Z) :
  GoInt.is_int nStep = true ->
  GoInt.is_int txPowerIndex = true ->
  GoInt.is_int dr = true ->
  nStep <= 0 ->
  let call :=
    getIdealTxPowerIndexAndDR_on_stack frames nStep txPowerIndex dr
      maxTxPowerIndex maxDR in
  (- nStep < Z.of_nat frames ->
     call = Some (lower_result (- nStep) txPowerIndex dr)
     /\ (txPowerIndex < 0 -> call = Some (txPowerIndex, dr))
     /\ (0 <= txPowerIndex -> 0 <= dr -> txPowerIndex + dr <= - nStep ->
         call = Some (0, 0)))
  /\ (Z.of_nat frames <= - nStep -> call = None).
Proof.
  intros Hn Ht Hd Hneg call. subst call.
  split.
  - intros Hf. rewrite on_stack_returns by (try assumption; lia).
    rewrite getIdeal_lower by assumption.
    unfold lower_result.
    destruct (Z.ltb_spec txPowerIndex 0) as [N | N].
    + split; [reflexivity | split; [reflexivity | lia]].
    + split; [reflexivity | split; [lia |]].
      intros _ Hdr Hroom. do 2 f_equal; lia.
  - intros Hf. apply on_stack_overflows; [assumption | lia].
Qed.

Lemma getIdeal_lowers_witness :
  getIdealTxPowerIndexAndDR_on_stack 5 (-4) 1 5 3 5
  = Some (lower_result 4 1 5)
  /\ getIdealTxPowerIndexAndDR_on_stack 4 (-4) 1 5 3 5 = None.
Proof.
  split.
  - apply (getIdeal_lowers_txpower_then_dr 5 (-4) 1 5 3 5);
      try reflexivity; cbn; lia.
  - apply (getIdeal_lowers_txpower_then_dr 4 (-4) 1 5 3 5);
      try reflexivity; cbn; lia.
Defined.


Lemma raise_result_add_nat maxTx maxDR k :
  forall b tx dr,
    0 <= b ->
    raise_result (Z.of_nat k + b) tx dr maxTx maxDR
    = raise_result b (fst (raise_result (Z.of_nat k) tx dr maxTx maxDR))
        (snd (raise_result (Z.of_nat k) tx dr maxTx maxDR)) maxTx maxDR.
Proof.
  induction k as [| k IH]; intros b tx dr Hb.
  - cbn [Z.of_nat Z.add]. unfold raise_result at 3 4. cbn [fst snd].
    f_equal; lia.
  - rewrite Nat2Z.inj_succ. unfold Z.succ.
    replace (Z.of_nat k + 1 + b) with (Z.of_nat k + b + 1) by lia.
    rewrite raise_result_succ by lia. rewrite IH by lia.
    rewrite <- raise_result_succ by lia. reflexivity.
Qed.

Lemma raise_result_add a b tx dr maxTx maxDR :
  0 <= a -> 0 <= b ->
  raise_result (a + b) tx dr maxTx maxDR
  = raise_result b (fst (raise_result a tx dr maxTx maxDR))
      (snd (raise_result a tx dr maxTx maxDR)) maxTx maxDR.
Proof.
  intros Ha Hb. rewrite <- (Z2Nat.id a Ha). apply raise_result_add_nat, Hb.
Qed.

Lemma lower_result_add_nat k :
  forall b tx dr,
    0 <= b ->
    lower_result (Z.of_nat k + b) tx dr
    = lower_result b (fst (lower_result (Z.of_nat k) tx dr))
        (snd (lower_result (Z.of_nat k) tx dr)).
Proof.
  induction k as [| k IH]; intros b tx dr Hb.
  - cbn [Z.of_nat Z.add]. unfold lower_result at 3 4.
    destruct (Z.ltb_spec tx 0); cbn [fst snd]; [reflexivity |].
    f_equal; lia.
  - rewrite Nat2Z.inj_succ. unfold Z.succ.
    replace (Z.of_nat k + 1 + b) with (Z.of_nat k + b + 1) by lia.
    rewrite lower_result_succ by lia. rewrite IH by lia.
    rewrite <- lower_result_succ by lia. reflexivity.
Qed.

Lemma lower_result_add a b tx dr :
  0 <= a -> 0 <= b ->
  lower_result (a + b) tx dr
  = lower_result b (fst (lower_result a tx dr)) (snd (lower_result a tx dr)).
Proof.
  intros Ha Hb. rewrite <- (Z2Nat.id a Ha). apply lower_result_add_nat, Hb.
Qed.

Lemma getIdeal_compose_value a b tx dr maxTx maxDR :
  GoInt.is_int a = true -> GoInt.is_int b = true ->
  GoInt.is_int (a + b) = true ->
  GoInt.is_int tx = true -> GoInt.is_int dr = true ->
  GoInt.is_int maxTx = true -> GoInt.is_int maxDR = true ->
  (0 <= a /\ 0 <= b) \/ (a <= 0 /\ b <= 0) ->
  getIdealTxPowerIndexAndDR (a + b) tx dr maxTx maxDR
  = getIdealTxPowerIndexAndDR b
      (fst (getIdealTxPowerIndexAndDR a tx dr maxTx maxDR))
      (snd (getIdealTxPowerIndexAndDR a tx dr maxTx maxDR)) maxTx maxDR.
Proof.
  intros Ha Hb Hab Ht Hd Hmt Hmd [[Pa Pb] | [Na Nb]].
  - rewrite (getIdeal_raise (a + b)) by (try assumption; lia).
    rewrite (getIdeal_raise a) by (try assumption; lia).
    destruct (raise_result_is_int a tx dr maxTx maxDR Ht Hd Hmt Hmd Pa)
      as [Ht1 Hd1].
    rewrite (getIdeal_raise b) by (try assumption; lia).
    apply raise_result_add; assumption.
  - rewrite (getIdeal_lower (a + b)) by (try assumption; lia).
    rewrite (getIdeal_lower a) by (try assumption; lia).
    destruct (lower_result_is_int (- a) tx dr Ht Hd ltac:(lia))
      as [Ht1 Hd1].
    rewrite (getIdeal_lower b) by (try assumption; lia).
    replace (- (a + b)) with (- a + - b) by lia.
    apply lower_result_add; lia.
Qed.

Lemma then_on_stack_returns frames a b tx dr maxTx maxDR :
  GoInt.is_int a = true -> GoInt.is_int b = true ->
  Z.abs a < Z.of_nat frames -> Z.abs b < Z.of_nat frames ->
  then_on_stack frames a b tx dr maxTx maxDR
  = Some (getIdealTxPowerIndexAndDR b
            (fst (getIdealTxPowerIndexAndDR a tx dr maxTx maxDR))
            (snd (getIdealTxPowerIndexAndDR a tx dr maxTx maxDR)) maxTx maxDR).
Proof.
  intros Ha Hb Fa Fb. unfold then_on_stack.
  rewrite (on_stack_returns maxTx maxDR a) by assumption.
  destruct (getIdealTxPowerIndexAndDR a tx dr maxTx maxDR) as [t d].
  cbn [fst snd]. apply on_stack_returns; assumption.
Qed.

(** X3.  Steps in one direction compose: on a stack that holds the nested
    calls of [a + b] steps, taking them in one call returns what taking [a]
    steps and then, in a second call, [b] steps from where they led returns.
    The two calls need less stack than the one: where each of them fits and
    the one does not, they return and it does not. *)
Theorem getIdeal_steps_compose
  (frames : nat) (a b txPowerIndex dr maxTxPowerIndex maxDR : Z) :
  GoInt.is_int a = true -> GoInt.is_int b = true ->
  GoInt.is_int (a + b) = true ->
  GoInt.is_int txPowerIndex = true -> GoInt.is_int dr = true ->
  GoInt.is_int maxTxPowerIndex = true -> GoInt.is_int maxDR = true ->
  (0 <= a /\ 0 <= b) \/ (a <= 0 /\ b <= 0) ->
  let one :=
    getIdealTxPowerIndexAndDR_on_stack frames (a + b) txPowerIndex dr
      maxTxPowerIndex maxDR in
  let two := then_on_stack frames a b txPowerIndex dr maxTxPowerIndex maxDR in
  (Z.abs (a + b) < Z.of_nat frames ->
     exists r, one = Some r /\ two = Some r)
  /\ (Z.abs a < Z.of_nat frames -> Z.abs b < Z.of_nat frames ->
      Z.of_nat frames <= Z.abs (a + b) ->
      one = None /\ exists r, two = Some r).
Proof.
  intros Ha Hb Hab Ht Hd Hmt Hmd Sgn one two. subst one two.
  split.
  - intros Hf.
    exists (getIdealTxPowerIndexAndDR (a + b) txPowerIndex dr
              maxTxPowerIndex maxDR).
    split; [apply on_stack_returns; assumption |].
    rewrite then_on_stack_returns by (try assumption; lia).
    rewrite <- getIdeal_compose_value by assumption. reflexivity.
  - intros Fa Fb Hf.
    split; [apply on_stack_overflows; assumption |].
    eexists. apply then_on_stack_returns; assumption.
Qed.

Lemma getIdeal_steps_compose_witness :
  (exists r,
     getIdealTxPowerIndexAndDR_on_stack 5 (-4) 1 5 3 5 = Some r
     /\ then_on_stack 5 (-1) (-3) 1 5 3 5 = Some r)
  /\ getIdealTxPowerIndexAndDR_on_stack 4 (-4) 1 5 3 5 = None
  /\ exists r, then_on_stack 4 (-1) (-3) 1 5 3 5 = Some r.
Proof.
  assert (S : (0 <= -1 /\ 0 <= -3) \/ (-1 <= 0 /\ -3 <= 0)) by (right; lia).
  split.
  - apply (getIdeal_steps_compose 5 (-1) (-3) 1 5 3 5
             eq_refl eq_refl eq_refl eq_refl eq_refl eq_refl eq_refl S).
    cbn. lia.
  - apply (getIdeal_steps_compose 4 (-1) (-3) 1 5 3 5
             eq_refl eq_refl eq_refl eq_refl eq_refl eq_refl eq_refl S);
      cbn; lia.
Defined.

(** ** The handler in closed form *)

Lemma min_is_int a b :
  GoInt.is_int a = true -> GoInt.is_int b = true ->
  GoInt.is_int (Z.min a b) = true.
Proof. intros Ha Hb. int_bounds. lia. Qed.

Lemma Handle_decision unrepresentable req :
  request_typed req = true -> HandleRequest.ADR req = true ->
  Handle unrepresentable req =
  let d :=
    decision (nStepOf unrepresentable req) (matching_count req)
      (HandleRequest.TxPowerIndex req)
      (Z.min (HandleRequest.DR req) (HandleRequest.MaxDR req))
      (HandleRequest.MaxTxPowerIndex req) (HandleRequest.MaxDR req) in
  (HandleResponse.mk (snd d) (fst d)
     (getNbTrans (HandleRequest.NbTrans req) (getPacketLossPercentage req)),
   nil_error).
Proof.
  intros T A.
  destruct (request_typed_fields req T) as (Hdr & Htx & _ & Hmt & Hmd & _).
  pose proof (nStepOf_is_int unrepresentable req) as Hn.
  pose proof (min_is_int _ _ Hdr Hmd) as Hd0.
  rewrite (Handle_enabled unrepresentable req A). cbv zeta.
  rewrite (getHistoryCount_matching req T).
  unfold decision, requiredHistoryCount.
  destruct (Z.ltb_spec (nStepOf unrepresentable req) 0) as [N | N].
  - rewrite (proj2 (Z.leb_gt 0 _) N).
    destruct (Z.eqb_spec (matching_count req) 20) as [C | C];
      cbn [andb negb]; [| reflexivity].
    rewrite getIdeal_lower by (try assumption; lia). reflexivity.
  - rewrite (proj2 (Z.leb_le 0 _) N). cbn [andb].
    rewrite getIdeal_raise by assumption. reflexivity.
Qed.

(** [Handle] on a stack returns what [Handle] gives, or does not return:
    it returns whenever the step application is not called, and otherwise
    when the nested calls of the step application fit. *)
Lemma Handle_on_stack_Handle unrepresentable frames req :
  Handle_on_stack unrepresentable frames req =
  let nStep := nStepOf unrepresentable req in
  if negb (HandleRequest.ADR req)
     || (nStep <? 0) && negb (getHistoryCount req =? requiredHistoryCount)
     || (Z.abs nStep <? Z.of_nat frames)
  then Some (Handle unrepresentable req)
  else None.
Proof.
  pose proof (nStepOf_is_int unrepresentable req) as Hn.
  unfold Handle_on_stack, Handle. cbv zeta.
  destruct (HandleRequest.ADR req); cbn [negb orb]; [| reflexivity].
  destruct (_ && _); cbn [orb]; [reflexivity |].
  destruct (Z.ltb_spec (Z.abs (nStepOf unrepresentable req)) (Z.of_nat frames))
    as [F | F].
  - rewrite on_stack_returns by assumption.
    destruct (getIdealTxPowerIndexAndDR _ _ _ _ _); reflexivity.
  - rewrite on_stack_overflows by assumption. reflexivity.
Qed.

(** X4.  What [Handle] does on a stack with room for [frames] nested calls
    of the step application, for every well-typed request: with ADR disabled
    it returns the current configuration; with ADR enabled it returns the
    retransmission count of the table and, from the data rate clamped to the
    maximum, the raise of a non-negative number of steps, the lowering of a
    negative number of steps when exactly 20 history entries were sent at the
    current TX power index, and no change otherwise; in the two cases that
    take steps it returns only when the number of steps is below [frames],
    and the process ends in the stack overflow when it is not.  What it
    returns comes with no error and is the value of [Handle]. *)
Theorem Handle_closed_form unrepresentable frames req :
  request_typed req = true ->
  let nStep := nStepOf unrepresentable req in
  let tx := HandleRequest.TxPowerIndex req in
  let dr0 := Z.min (HandleRequest.DR req) (HandleRequest.MaxDR req) in
  let maxTx := HandleRequest.MaxTxPowerIndex req in
  let maxDR := HandleRequest.MaxDR req in
  let nb :=
    getNbTrans (HandleRequest.NbTrans req) (getPacketLossPercentage req) in
  Handle_on_stack unrepresentable frames req =
  (if HandleRequest.ADR req then
     if 0 <=? nStep then
       if nStep <? Z.of_nat frames then
         Some (HandleResponse.mk (snd (raise_result nStep tx dr0 maxTx maxDR))
                 (fst (raise_result nStep tx dr0 maxTx maxDR)) nb, nil_error)
       else None
     else if matching_count req =? 20 then
       if - nStep <? Z.of_nat frames then
         Some (HandleResponse.mk (snd (lower_result (- nStep) tx dr0))
                 (fst (lower_result (- nStep) tx dr0)) nb, nil_error)
       else None
     else Some (HandleResponse.mk dr0 tx nb, nil_error)
   else
     Some (HandleResponse.mk (HandleRequest.DR req) tx
             (HandleRequest.NbTrans req), nil_error))
  /\ (forall r, Handle_on_stack unrepresentable frames req = Some r ->
        r = Handle unrepresentable req /\ snd r = nil_error).
Proof.
  intros T nStep tx dr0 maxTx maxDR nb.
  rewrite Handle_on_stack_Handle. cbv zeta. fold nStep.
  split.
  - destruct (HandleRequest.ADR req) eqn:A; cbn [negb orb].
    + rewrite (Handle_decision unrepresentable req T A). cbv zeta.
      rewrite (getHistoryCount_matching req T).
      unfold decision, requiredHistoryCount.
      fold nStep tx dr0 maxTx maxDR nb.
      destruct (Z.leb_spec 0 nStep) as [P | N].
      * rewrite (proj2 (Z.ltb_ge nStep 0) P). cbn [andb orb].
        rewrite (Z.abs_eq nStep P). reflexivity.
      * rewrite (proj2 (Z.ltb_lt nStep 0) N). cbn [andb].
        rewrite (Z.abs_neq nStep) by lia.
        destruct (matching_count req =? 20); cbn [negb orb]; reflexivity.
    + rewrite (Handle_disabled unrepresentable req A). reflexivity.
  - intros r H.
    destruct (_ || _); [| discriminate H].
    injection H as <-. split; [reflexivity |].
    destruct (HandleRequest.ADR req) eqn:A.
    + rewrite (Handle_decision unrepresentable req T A). reflexivity.
    + rewrite (Handle_disabled unrepresentable req A). reflexivity.
Qed.

Lemma Handle_closed_form_witness :
  Handle_on_stack amd64 9 req_20_matching
  = Some (HandleResponse.mk 0 0 1, nil_error)
  /\ Handle_on_stack amd64 8 req_20_matching = None
  /\ Handle_on_stack amd64 ten_million_frames req_huge_snr = None.
Proof.
  split; [| split].
  - exact (proj1 (Handle_closed_form amd64 9 req_20_matching eq_refl)).
  - exact (proj1 (Handle_closed_form amd64 8 req_20_matching eq_refl)).
  - pose proof (Handle_closed_form amd64 ten_million_frames req_huge_snr
                  eq_refl) as H.
    cbv zeta in H. destruct H as [H _]. rewrite H.
    unfold ten_million_frames. rewrite Z2Nat.id by lia.
    vm_compute. reflexivity.
Defined.

(** X5.  With ADR enabled the response moves in one direction only and by
    no more than the number of steps: non-negative steps lower neither the
    clamped data rate nor the TX power index, non-positive steps raise
    neither, and the two changes add up to at most [|nStep|]. *)
Theorem Handle_moves_in_step_direction unrepresentable req :
  request_typed req = true ->
  HandleRequest.ADR req = true ->
  let nStep := nStepOf unrepresentable req in
  let resp := fst (Handle unrepresentable req) in
  let tx := HandleRequest.TxPowerIndex req in
  let dr0 := Z.min (HandleRequest.DR req) (HandleRequest.MaxDR req) in
  (0 <= nStep ->
     dr0 <= HandleResponse.DR resp /\ tx <= HandleResponse.TxPowerIndex resp)
  /\ (nStep <= 0 ->
        HandleResponse.DR resp <= dr0 /\ HandleResponse.TxPowerIndex resp <= tx)
  /\ Z.abs (HandleResponse.DR resp - dr0)
     + Z.abs (HandleResponse.TxPowerIndex resp - tx) <= Z.abs nStep.
Proof.
  intros T A nStep resp tx dr0. subst resp.
  rewrite (Handle_decision unrepresentable req T A). cbv zeta.
  fold nStep tx dr0. cbn [fst HandleResponse.DR HandleResponse.TxPowerIndex].
  unfold decision.
  destruct (Z.leb_spec 0 nStep) as [P | N].
  - unfold raise_result. cbn [fst snd].
    destruct (Z_le_dec (HandleRequest.MaxDR req) dr0) as [D | D].
    + rewrite (Z.max_l dr0 (Z.min (HandleRequest.MaxDR req) (dr0 + nStep)))
        by lia.
      lia.
    + lia.
  - destruct (matching_count req =? 20); [| cbn [fst snd]; lia].
    unfold lower_result.
    destruct (Z.ltb_spec tx 0); cbn [fst snd]; lia.
Qed.

Lemma Handle_moves_in_step_direction_witness :
  let resp := fst (Handle amd64 req_20_matching) in
  HandleResponse.DR resp <= 5 /\ HandleResponse.TxPowerIndex resp <= 1.
Proof.
  cbv zeta.
  destruct (Handle_moves_in_step_direction amd64 req_20_matching
              eq_refl eq_refl) as (_ & H & _).
  apply H. vm_compute. discriminate.
Defined.

(** X6.  A response is stable once the device has taken it over: when ADR
    is disabled, or when the table keeps the retransmission count and either
    no step is due or the guard holds a negative step back, handling the
    request updated with the response gives the same response again. *)
Theorem Handle_stable_at_equilibrium unrepresentable req :
  request_typed req = true ->
  let nStep := nStepOf unrepresentable req in
  let resp := fst (Handle unrepresentable req) in
  HandleRequest.ADR req = false
  \/ ((nStep = 0 \/ (nStep < 0 /\ matching_count req <> 20))
      /\ getNbTrans (HandleRequest.NbTrans req) (getPacketLossPercentage req)
         = HandleRequest.NbTrans req) ->
  Handle unrepresentable (apply_response req resp)
  = Handle unrepresentable req.
Proof.
  intros T nStep resp [A | [Hstep Hnb]]; subst resp.
  - rewrite (Handle_disabled unrepresentable req A).
    rewrite Handle_disabled by exact A. reflexivity.
  - destruct (HandleRequest.ADR req) eqn:A.
    2:{ rewrite (Handle_disabled unrepresentable req A).
        rewrite Handle_disabled by exact A. reflexivity. }
    assert (R : Handle unrepresentable req
                = (HandleResponse.mk
                     (Z.min (HandleRequest.DR req) (HandleRequest.MaxDR req))
                     (HandleRequest.TxPowerIndex req)
                     (HandleRequest.NbTrans req), nil_error)).
    { rewrite (Handle_enabled unrepresentable req A). cbv zeta.
      rewrite (getHistoryCount_matching req T), Hnb.
      fold nStep. unfold requiredHistoryCount.
      destruct Hstep as [Z | [N C]].
      - rewrite Z. cbn [Z.ltb Z.compare andb].
        rewrite getIdeal_unfold. reflexivity.
      - rewrite (proj2 (Z.ltb_lt _ _) N), (proj2 (Z.eqb_neq _ _) C).
        reflexivity. }
    rewrite R. cbn [fst].
    set (req' := apply_response req _).
    rewrite (Handle_enabled unrepresentable req' A). cbv zeta.
    change (HandleRequest.DR req')
      with (Z.min (HandleRequest.DR req) (HandleRequest.MaxDR req)).
    change (HandleRequest.MaxDR req') with (HandleRequest.MaxDR req).
    change (HandleRequest.TxPowerIndex req')
      with (HandleRequest.TxPowerIndex req).
    change (HandleRequest.NbTrans req') with (HandleRequest.NbTrans req).
    change (HandleRequest.MaxTxPowerIndex req')
      with (HandleRequest.MaxTxPowerIndex req).
    change (getPacketLossPercentage req') with (getPacketLossPercentage req).
    change (nStepOf unrepresentable req') with nStep.
    change (getHistoryCount req') with (getHistoryCount req).
    rewrite (getHistoryCount_matching req T), Hnb.
    rewrite Z.min_l by lia.
    unfold requiredHistoryCount.
    destruct Hstep as [Z | [N C]].
    + rewrite Z. cbn [Z.ltb Z.compare andb].
      rewrite getIdeal_unfold. reflexivity.
    + rewrite (proj2 (Z.ltb_lt _ _) N), (proj2 (Z.eqb_neq _ _) C).
      reflexivity.
Qed.

Lemma Handle_stable_at_equilibrium_witness :
  Handle amd64
    (apply_response req_equilibrium (fst (Handle amd64 req_equilibrium)))
  = Handle amd64 req_equilibrium.
Proof.
  apply (Handle_stable_at_equilibrium amd64 req_equilibrium eq_refl).
  right. split; [left |]; reflexivity.
Defined.

Lemma matching_count_le_length req :
  0 <= matching_count req
  <= Z.of_nat (length (HandleRequest.UplinkHistory req)).
Proof.
  unfold matching_count.
  pose proof (filter_length_le
                (fun uh => HandleRequest.TxPowerIndex req =? TXPowerIndex uh)
                (HandleRequest.UplinkHistory req)).
  lia.
Qed.

(** X7.  With ADR enabled and fewer than 20 history entries the loss counts
    as zero, so the retransmission count comes from the first table row and is
    never above the clamped current one; and a negative number of steps
    changes neither the TX power index nor the clamped data rate. *)
Theorem Handle_short_history unrepresentable req :
  request_typed req = true ->
  HandleRequest.ADR req = true ->
  Z.of_nat (length (HandleRequest.UplinkHistory req)) < 20 ->
  let resp := fst (Handle unrepresentable req) in
  HandleResponse.NbTrans resp = row_entry [1; 1; 2] (HandleRequest.NbTrans req)
  /\ HandleResponse.NbTrans resp <= clampNbTrans (HandleRequest.NbTrans req)
  /\ (nStepOf unrepresentable req < 0 ->
      HandleResponse.TxPowerIndex resp = HandleRequest.TxPowerIndex req
      /\ HandleResponse.DR resp
         = Z.min (HandleRequest.DR req) (HandleRequest.MaxDR req)).
Proof.
  intros T A L resp. subst resp.
  rewrite (Handle_decision unrepresentable req T A). cbv zeta.
  cbn [fst HandleResponse.DR HandleResponse.TxPowerIndex
       HandleResponse.NbTrans].
  assert (E : getPacketLossPercentage req = S754_zero false).
  { unfold getPacketLossPercentage. cbv zeta. unfold requiredHistoryCount.
    rewrite (proj2 (Z.ltb_lt _ _) L). reflexivity. }
  rewrite E, getNbTrans_rows.
  change (F32.lt (S754_zero false) (F32.of_Z 5)) with true. cbv iota.
  split; [reflexivity | split].
  - unfold row_entry.
    destruct (clampNbTrans_range (HandleRequest.NbTrans req))
      as [C | [C | C]]; rewrite C; vm_compute; discriminate.
  - intros N. unfold decision.
    rewrite (proj2 (Z.leb_gt 0 _) N).
    pose proof (matching_count_le_length req) as M.
    rewrite (proj2 (Z.eqb_neq (matching_count req) 20)) by lia.
    split; reflexivity.
Qed.

Lemma Handle_short_history_witness :
  HandleResponse.NbTrans (fst (Handle amd64 req_empty_history)) = 1.
Proof.
  apply (Handle_short_history amd64 req_empty_history eq_refl eq_refl).
  cbn. lia.
Defined.

(** ** The retransmission table as a function *)

Lemma le_lt_trans (a b c : float32) :
  F32.le a b = true -> F32.lt b c = true -> F32.lt a c = true.
Proof.
  unfold F32.le, F32.lt, SFleb, SFltb.
  destruct a as [sa | sa | | sa ma ea], b as [sb | sb | | sb mb eb],
    c as [sc | sc | | sc mc ec];
    try destruct sa; try destruct sb; try destruct sc; cbn;
    try (intros; first [reflexivity | discriminate]);
    compare_cases.
Qed.

Ltac table_cases c :=
  unfold row_entry;
  destruct (clampNbTrans_range c) as [?C | [?C | ?C]]; rewrite ?C.

(** X8.  The retransmission count selected never goes down when the
    current count goes up, nor when the loss percentage goes up. *)
Theorem getNbTrans_monotone (c1 c2 : Z) (loss1 loss2 : float32) :
  c1 <= c2 -> F32.le loss1 loss2 = true ->
  getNbTrans c1 loss1 <= getNbTrans c2 loss2.
Proof.
  intros Hc Hl. rewrite !getNbTrans_rows.
  pose proof (fun k => le_lt_trans loss1 loss2 (F32.of_Z k) Hl) as Hk.
  assert (Hclamp : clampNbTrans c1 <= clampNbTrans c2)
    by (unfold clampNbTrans; lia).
  pose proof (Hk 5) as H5. pose proof (Hk 10) as H10.
  pose proof (Hk 30) as H30. clear Hk.
  destruct (F32.lt loss1 (F32.of_Z 5)) eqn:A1,
    (F32.lt loss1 (F32.of_Z 10)) eqn:B1,
    (F32.lt loss1 (F32.of_Z 30)) eqn:C1,
    (F32.lt loss2 (F32.of_Z 5)) eqn:A2,
    (F32.lt loss2 (F32.of_Z 10)) eqn:B2,
    (F32.lt loss2 (F32.of_Z 30)) eqn:C2;
    try (specialize (H5 eq_refl); discriminate H5);
    try (specialize (H10 eq_refl); discriminate H10);
    try (specialize (H30 eq_refl); discriminate H30);
    unfold row_entry;
    destruct (clampNbTrans_range c1) as [E1 | [E1 | E1]],
      (clampNbTrans_range c2) as [E2 | [E2 | E2]];
    rewrite E1, E2 in *; try lia; vm_compute; discriminate.
Qed.

Lemma getNbTrans_monotone_witness :
  getNbTrans 1 (F32.of_Z 3) <= getNbTrans 2 (F32.of_Z 12).
Proof.
  apply getNbTrans_monotone; [lia | reflexivity].
Defined.

(** X9.  While the loss stays in its band, two successive lookups settle
    the retransmission count: at 1 below 5 percent, at the clamped current
    count from 5 to below 10 percent, at 3 from 10 percent on (a NaN
    included). *)
Theorem getNbTrans_settles (currentNbTrans : Z) (loss : float32) :
  let twice := getNbTrans (getNbTrans currentNbTrans loss) loss in
  (F32.lt loss (F32.of_Z 5) = true -> twice = 1)
  /\ (F32.le (F32.of_Z 5) loss = true -> F32.lt loss (F32.of_Z 10) = true ->
        getNbTrans currentNbTrans loss = clampNbTrans currentNbTrans
        /\ twice = clampNbTrans currentNbTrans)
  /\ (F32.lt loss (F32.of_Z 10) = false -> twice = 3).
Proof.
  intros twice. subst twice.
  assert (H510 : F32.le (F32.of_Z 5) (F32.of_Z 10) = true) by reflexivity.
  assert (H1030 : F32.le (F32.of_Z 10) (F32.of_Z 30) = true) by reflexivity.
  split; [| split].
  - intros H. rewrite !getNbTrans_rows, !H.
    unfold row_entry.
    destruct (clampNbTrans_range currentNbTrans) as [E | [E | E]];
      rewrite E; reflexivity.
  - intros H5 H10. rewrite !getNbTrans_rows.
    rewrite !(le_not_gt _ _ H5), !H10.
    unfold row_entry.
    destruct (clampNbTrans_range currentNbTrans) as [E | [E | E]];
      rewrite E; split; reflexivity.
  - intros H10. rewrite !getNbTrans_rows.
    assert (H5 : F32.lt loss (F32.of_Z 5) = false).
    { destruct (F32.lt loss (F32.of_Z 5)) eqn:X; [| reflexivity].
      pose proof (lt_trans loss (F32.of_Z 5) (F32.of_Z 10) X eq_refl) as Y.
      congruence. }
    rewrite !H5, !H10.
    unfold row_entry.
    destruct (F32.lt loss (F32.of_Z 30));
      destruct (clampNbTrans_range currentNbTrans) as [E | [E | E]];
      rewrite E; reflexivity.
Qed.

Lemma getNbTrans_settles_witness :
  getNbTrans (getNbTrans 3 (F32.of_Z 2)) (F32.of_Z 2) = 1.
Proof.
  destruct (getNbTrans_settles 3 (F32.of_Z 2)) as [H _].
  apply H. reflexivity.
Defined.

(** X10.  [getNbTrans] never indexes outside [pktLossRateTable]: whatever
    the current count and the loss percentage, a NaN included, both accesses
    are inside and give the count [getNbTrans] returns. *)
Theorem getNbTrans_never_out_of_range (currentNbTrans : Z) (loss : float32) :
  getNbTrans_checked currentNbTrans loss
  = Some (getNbTrans currentNbTrans loss).
Proof.
  unfold getNbTrans_checked, getNbTrans. cbv zeta.
  rewrite clamp_cases.
  destruct (clampNbTrans_range currentNbTrans) as [E | [E | E]]; rewrite E;
    destruct (F32.lt loss (F32.of_Z 5)); try reflexivity;
    destruct (F32.lt loss (F32.of_Z 10)); try reflexivity;
    destruct (F32.lt loss (F32.of_Z 30)); reflexivity.
Qed.

(** ** History entries without a usable SNR *)

Lemma maxSNR_loop_skips_nan l :
  forall acc,
    fold_left
      (fun snrM m => if F32.gt (MaxSNR m) snrM then MaxSNR m else snrM)
      l acc
    = fold_left
        (fun snrM m => if F32.gt (MaxSNR m) snrM then MaxSNR m else snrM)
        (filter snr_is_number l) acc.
Proof.
  induction l as [| m l IH]; intros acc; [reflexivity |].
  cbn [filter fold_left]. unfold snr_is_number at 1.
  destruct (MaxSNR m) as [s | s | | s mm e] eqn:E; cbn [fold_left];
    rewrite ?E; try apply IH.
  replace (F32.gt S754_nan acc) with false
    by (unfold F32.gt, SFltb; destruct acc as [[] | [] | | [] ? ?];
        reflexivity).
  apply IH.
Qed.

(** X11.  The maximum SNR is never a NaN, and history entries whose SNR is
    a NaN are skipped: the maximum is the one of the history without them. *)
Theorem getMaxSNR_skips_nan req :
  getMaxSNR req <> S754_nan
  /\ getMaxSNR req
     = getMaxSNR
         (with_history req
            (filter snr_is_number (HandleRequest.UplinkHistory req))).
Proof.
  split.
  - destruct (getMaxSNR_bounds req) as ([E | L] & _ & _).
    + rewrite E. discriminate.
    + intros N. rewrite N in L. discriminate L.
  - unfold getMaxSNR. cbn [with_history HandleRequest.UplinkHistory].
    apply maxSNR_loop_skips_nan.
Qed.

(** ** Frame counters that roll over *)

Lemma lost_sum_consecutive_uint32 l :
  counters_consecutive_uint32 l = true ->
  exists k, lost_sum l = k * 2 ^ 32.
Proof.
  induction l as [| a l IH]; [exists 0; reflexivity |].
  destruct l as [| b l]; [exists 0; reflexivity |].
  rewrite lost_sum_cons.
  change (counters_consecutive_uint32 (a :: b :: l))
    with ((b =? GoInt.wrap32 (a + 1)) && counters_consecutive_uint32 (b :: l)).
  rewrite andb_true_iff, Z.eqb_eq. intros [Hab Hrest].
  destruct (IH Hrest) as [k Hk]. rewrite Hk.
  exists (k - (a + 1) / 2 ^ 32).
  unfold GoInt.wrap32 in Hab.
  pose proof (Z.div_mod (a + 1) (2 ^ 32) ltac:(lia)) as D.
  lia.
Qed.

(** X12.  A history of at least 20 entries whose frame counters each follow
    the one before, a roll-over from 2^32 - 1 to 0 included, has no lost
    frame: the loss percentage is exactly zero and the retransmission count
    comes from the first table row. *)
Theorem rollover_is_no_loss req :
  request_typed req = true ->
  20 <= Z.of_nat (length (HandleRequest.UplinkHistory req)) ->
  counters_consecutive_uint32 (map FCnt (HandleRequest.UplinkHistory req))
  = true ->
  lostPacketsLoop 0 (HandleRequest.UplinkHistory req) 0 0 = 0
  /\ getPacketLossPercentage req = S754_zero false
  /\ forall c,
       getNbTrans c (getPacketLossPercentage req) = row_entry [1; 1; 2] c.
Proof.
  intros T L C.
  destruct (request_typed_fields req T) as (_ & _ & _ & _ & _ & Hlen & _).
  assert (Z : lostPacketsLoop 0 (HandleRequest.UplinkHistory req) 0 0 = 0).
  { rewrite lostPackets_sum.
    destruct (lost_sum_consecutive_uint32 _ C) as [k Hk]. rewrite Hk.
    unfold GoInt.wrap32. apply Z.mod_mul. lia. }
  assert (E : getPacketLossPercentage req = S754_zero false).
  { unfold getPacketLossPercentage. cbv zeta. unfold requiredHistoryCount.
    rewrite (proj2 (Z.ltb_ge _ _) L), Z.
    destruct (of_Z_finite
                (Z.of_nat (length (HandleRequest.UplinkHistory req))))
      as (m & e & F); [unfold GoInt.max_int in Hlen; lia |].
    rewrite F. reflexivity. }
  split; [exact Z | split; [exact E |]].
  intros c. rewrite E, getNbTrans_rows. reflexivity.
Qed.

Lemma rollover_is_no_loss_witness :
  getPacketLossPercentage req_rollover = S754_zero false.
Proof.
  apply (rollover_is_no_loss req_rollover eq_refl).
  - cbn. lia.
  - reflexivity.
Defined.

(** ** The loss percentage is not negative *)

Lemma of_Z_nonneg z : 0 <= z -> float_nonneg (F32.of_Z z).
Proof.
  intros H. unfold float_nonneg, F32.of_Z, F32.prec, F32.emax.
  pose proof (binary_normalize_sign z 0) as S.
  replace (z <? 0) with false in S
    by (symmetry; apply Z.ltb_ge; exact H).
  exact S.
Qed.

Lemma div_nonneg (a : float32) m e :
  float_nonneg a -> float_nonneg (F32.div a (S754_finite false m e)).
Proof.
  unfold float_nonneg, F32.div, F32.prec, F32.emax.
  destruct a as [sa | sa | | sa ma ea]; cbn [float_sign_is SFdiv];
    intros Ha; subst; try tauto; try reflexivity.
  unfold SFdiv_core_binary.
  set (m' := match _ - _ with Z0 => Z.pos ma | Z.pos _ => _ | Z.neg _ => 0 end).
  assert (Hm' : 0 <= m').
  { subst m'. destruct (_ - _); try lia. apply Z.shiftl_nonneg. lia. }
  pose proof (Z.div_pos m' (Z.pos m) Hm' ltac:(lia)) as Hq.
  unfold Z.div in Hq. destruct (Z.div_eucl m' (Z.pos m)) as [q r].
  cbn [fst] in Hq. apply (binary_round_aux_sign false). exact Hq.
Qed.

Lemma mul_nonneg (a : float32) m e :
  float_nonneg a -> float_nonneg (F32.mul a (S754_finite false m e)).
Proof.
  unfold float_nonneg, F32.mul, F32.prec, F32.emax.
  destruct a as [sa | sa | | sa ma ea]; cbn [float_sign_is SFmul];
    intros Ha; subst; try tauto; try reflexivity.
  apply (binary_round_aux_sign false). lia.
Qed.

(** X13.  The loss percentage computed for a request is never negative:
    it is a zero or a positive number, whatever the frame counters. *)
Theorem loss_percentage_nonneg req :
  request_typed req = true -> float_nonneg (getPacketLossPercentage req).
Proof.
  intros T.
  destruct (request_typed_fields req T) as (_ & _ & _ & _ & _ & Hlen & _).
  unfold getPacketLossPercentage. cbv zeta. unfold requiredHistoryCount.
  destruct (Z.ltb_spec (Z.of_nat (length (HandleRequest.UplinkHistory req))) 20)
    as [H | H]; [exact I |].
  destruct (of_Z_finite (Z.of_nat (length (HandleRequest.UplinkHistory req))))
    as (m & e & E); [unfold GoInt.max_int in Hlen; lia |].
  rewrite E.
  change (F32.of_Z 100) with (S754_finite false 13107200 (-17)).
  apply mul_nonneg, div_nonneg, of_Z_nonneg.
  rewrite lostPackets_sum. apply wrap32_range.
Qed.

Lemma loss_percentage_nonneg_witness :
  float_nonneg (getPacketLossPercentage req_one_repeat).
Proof. exact (loss_percentage_nonneg req_one_repeat eq_refl). Defined.

(** ** The count of entries at the current TX power index *)

Lemma filter_all_length {A : Type} (p : A -> bool) (l : list A) :
  length (filter p l) = length l <-> forall x, In x l -> p x = true.
Proof.
  induction l as [| a l IH]; cbn [filter length In].
  - split; [intros _ x [] | reflexivity].
  - pose proof (filter_length_le p l) as Hle.
    destruct (p a) eqn:E; cbn [length].
    + split.
      * intros H x [<- | Hx]; [exact E |]. apply IH; [lia | exact Hx].
      * intros H. f_equal. apply IH. intros x Hx. apply H. right. exact Hx.
    + split; [lia |]. intros H.
      specialize (H a (or_introl eq_refl)). congruence.
Qed.

(** X14.  The history count is the number of entries sent at the request's
    TX power index, without wrap-around: it lies between 0 and the history
    length, and it is the history length exactly when every entry was sent at
    that index. *)
Theorem getHistoryCount_counts req :
  request_typed req = true ->
  let history := HandleRequest.UplinkHistory req in
  getHistoryCount req = matching_count req
  /\ 0 <= getHistoryCount req <= Z.of_nat (length history)
  /\ (getHistoryCount req = Z.of_nat (length history)
      <-> forall uh, In uh history ->
            TXPowerIndex uh = HandleRequest.TxPowerIndex req).
Proof.
  intros T history. subst history.
  rewrite (getHistoryCount_matching req T).
  split; [reflexivity | split; [apply matching_count_le_length |]].
  unfold matching_count. rewrite Nat2Z.inj_iff, filter_all_length.
  split; intros H uh Hin; specialize (H uh Hin).
  - apply Z.eqb_eq in H. symmetry. exact H.
  - apply Z.eqb_eq. symmetry. exact H.
Qed.

Lemma getHistoryCount_counts_witness :
  getHistoryCount req_21_matching = 21.
Proof.
  exact (proj1 (getHistoryCount_counts req_21_matching eq_refl)).
Defined.
